(** * Douban-Viz: the vector retrieval service ([analysis/vector_service.py])

    A shallow embedding of class [VectorService] and the properties of its
    index construction ([build_index]) and of its two queries ([search],
    [search_by_id]).

    Python objects are modelled as follows.
    - [str] is a list of Unicode code points, so that [len] counts characters.
    - Database cells and filter values are [None], [int] or [str] ([pyval]);
      a row is a tuple, modelled as a list indexed from 0, and indexing past
      its end raises [IndexError].
    - A [dict] is a [gmap]; [d[k]] raises [KeyError] on a missing key and
      [d.get(k, default)] does not.
    - Exceptions are a result type; the attributes of [self], the cache file
      and the logger output are threaded through a state monad, and a raised
      exception keeps the state reached so far.
    - The encoder, the repository, numpy's [argsort] and scikit-learn's cosine
      similarity are collaborators outside the repository, and so is the file
      system under [open] and [pickle.dump].  They are the fields of an
      environment record; vectors and similarity scores are abstract types,
      so nothing depends on floating point arithmetic.
    - Calls are sequential: the lock of [build_index] is not modelled. *)

From stdpp Require Import base option list gmap strings fin_maps pretty sorting.
From Stdlib Require Import ZArith.

Local Open Scope Z_scope.

(** ** Python values *)

Module Py.

(** A [str]: the sequence of its code points. *)
Definition pystr := list N.

Inductive pyval :=
| PNone
| PInt (z : Z)
| PStr (s : pystr).

#[global] Instance pyval_eq_dec : EqDecision pyval.
Proof. solve_decision. Defined.

#[global] Instance pyval_countable : Countable pyval.
Proof.
  refine (inj_countable'
    (λ v, match v with
          | PNone => inl ()
          | PInt z => inr (inl z)
          | PStr s => inr (inr s)
          end)
    (λ x, match x with
          | inl _ => PNone
          | inr (inl z) => PInt z
          | inr (inr s) => PStr s
          end) _).
  by intros [].
Defined.

Inductive exn :=
| TypeError
| KeyError
| IndexError
| AttributeError
| ModelLoadError      (* SentenceTransformer(...) failed *)
| EncodeError         (* model.encode(...) failed *)
| StorageError        (* repo.get_all_movies() failed *)
| UnpicklingError     (* pickle.load(...) failed on the cache file *)
| OSError.            (* the cache file could not be opened or written *)

#[global] Instance exn_eq_dec : EqDecision exn.
Proof. solve_decision. Defined.

(** The outcome of evaluating an expression: a value or a raised exception. *)
Inductive res (A : Type) :=
| Ok (a : A)
| Raise (e : exn).
Arguments Ok {A} a.
Arguments Raise {A} e.

#[global] Instance res_eq_dec {A} `{EqDecision A} : EqDecision (res A).
Proof. solve_decision. Defined.

#[global] Instance res_ret : MRet res := λ A a, Ok a.
#[global] Instance res_bind : MBind res := λ A B f r,
  match r with
  | Ok a => f a
  | Raise e => Raise e
  end.

(** [for x in l] with a body that may raise, collecting the results. *)
Fixpoint res_mapM {A B} (f : A → res B) (l : list A) : res (list B) :=
  match l with
  | [] => Ok []
  | x :: l' => y ← f x; ys ← res_mapM f l'; Ok (y :: ys)
  end.

(** A list comprehension [[x for x in l if p(x)]] whose test may raise. *)
Fixpoint res_filterM {A} (p : A → res bool) (l : list A) : res (list A) :=
  match l with
  | [] => Ok []
  | x :: l' =>
      b ← p x; ys ← res_filterM p l'; Ok (if b : bool then x :: ys else ys)
  end.

(** An ASCII literal as a [str]. *)
Fixpoint lit (s : string) : pystr :=
  match s with
  | EmptyString => []
  | String a s' => Ascii.N_of_ascii a :: lit s'
  end.

(** [bool(v)] *)
Definition truthy (v : pyval) : bool :=
  match v with
  | PNone => false
  | PInt z => negb (z =? 0)
  | PStr s => match s with [] => false | _ => true end
  end.

(** [str(v)] *)
Definition str (v : pyval) : pystr :=
  match v with
  | PNone => lit "None"
  | PInt z => lit (pretty z)
  | PStr s => s
  end.

(** [c.isspace()] for a single character. *)
Definition isspace (c : N) : bool :=
  ((9 <=? c) && (c <=? 13) || (28 <=? c) && (c <=? 32) || (c =? 133)
   || (c =? 160) || (c =? 5760) || (8192 <=? c) && (c <=? 8202)
   || (c =? 8232) || (c =? 8233) || (c =? 8239) || (c =? 8287)
   || (c =? 12288))%N.

Fixpoint lstrip (s : pystr) : pystr :=
  match s with
  | [] => []
  | c :: s' => if isspace c then lstrip s' else s
  end.

(** [s.strip()] *)
Definition strip (s : pystr) : pystr := reverse (lstrip (reverse (lstrip s))).

Fixpoint startswith (p s : pystr) : bool :=
  match p, s with
  | [], _ => true
  | _ :: _, [] => false
  | a :: p', b :: s' => (a =? b)%N && startswith p' s'
  end.

(** [sub in s] for two strings. *)
Fixpoint contains (sub s : pystr) : bool :=
  startswith sub s ||
  match s with
  | [] => false
  | _ :: s' => contains sub s'
  end.

(** The code points of the digit zero of every decimal digit block
    (general category Nd, Unicode 14): the characters matched by [\d]. *)
Definition digit_zeros : list N :=
  [48; 1632; 1776; 1984; 2406; 2534; 2662; 2790; 2918; 3046; 3174; 3302;
   3430; 3558; 3664; 3792; 3872; 4160; 4240; 6112; 6160; 6470; 6608; 6784;
   6800; 6992; 7088; 7232; 7248; 42528; 43216; 43264; 43472; 43504; 43600;
   44016; 65296; 66720; 68912; 69734; 69872; 69942; 70096; 70384; 70736;
   70864; 71248; 71360; 71472; 71904; 72016; 72784; 73040; 73120; 92768;
   92864; 93008; 120782; 120792; 120802; 120812; 120822; 123200; 123632;
   125264; 130032]%N.

(** The value of a decimal digit, [None] when [\d] does not match. *)
Definition digit (c : N) : option Z :=
  match list_find (λ z, z ≤ c ∧ c < z + 10)%N digit_zeros with
  | Some (_, z) => Some (Z.of_N (c - z))
  | None => None
  end.

(** [re.search(r'\d{4}', s)] followed by [int(match.group())]: the value of
    the leftmost run of four digits. *)
Fixpoint search_year (s : pystr) : option Z :=
  match s with
  | [] => None
  | a :: s' =>
      match digit a, s' with
      | Some da, b :: c :: d :: _ =>
          match digit b, digit c, digit d with
          | Some db, Some dc, Some dd =>
              Some (((da * 10 + db) * 10 + dc) * 10 + dd)
          | _, _, _ => search_year s'
          end
      | _, _ => search_year s'
      end
  end.

(** [s.lower()], restricted to the letters A to Z; the model names this
    is applied to are ASCII hub identifiers. *)
Definition lower (s : pystr) : pystr :=
  (λ c, if (65 <=? c) && (c <=? 90) then c + 32 else c)%N <$> s.

(** [v[:n]] for a value that has to be a string. *)
Definition prefix_of (v : pyval) (n : nat) : res pystr :=
  match v with
  | PStr s => Ok (take n s)
  | _ => Raise TypeError
  end.

(** [t[i]] for a tuple. *)
Definition item (t : list pyval) (i : nat) : res pyval :=
  match t !! i with
  | Some v => Ok v
  | None => Raise IndexError
  end.

(** [l[start:stop]] for [0 <= start] and any integer [stop]. *)
Definition slice {A} (l : list A) (start : nat) (stop : Z) : list A :=
  let n := Z.of_nat (length l) in
  let stop' := if stop <? 0 then Z.max 0 (stop + n) else Z.min stop n in
  drop start (take (Z.to_nat stop') l).

End Py.
Import Py.


(** ** The service state and its collaborators *)

(** The dictionary of display fields kept for one movie. *)
Abbreviation metadata := (gmap string pyval).

Section VectorService.

Context {vec score : Type}.


(** The object pickled into [data/vectors.pkl]: a dictionary with (normally)
    the keys ["vectors"], ["movie_ids"] and ["id_to_meta"].  The outer option
    is the presence of the key, the inner one is Python's [None]. *)
Record bundle := Bundle {
  b_vectors : option (option (list vec));
  b_movie_ids : option (option (list pyval));
  b_id_to_meta : option (option (gmap pyval metadata));
}.

Inductive cache_file :=
| NoFile                  (* os.path.exists(cache_path) is False *)
| Unreadable              (* the file exists, pickle.load raises *)
| Pickled (d : bundle).

(** The messages handed to the logger, in the order of the calls. *)
Inductive log_event :=
| ModelLoading
| ModelLoaded
| ModelLoadFailed (e : exn)
| CacheAdopted
| CacheStale (db_count cached : nat)
| CacheLoadFailed (e : exn)
| Building
| NoValidMovies
| Encoding (n : nat)
| Built.

#[global] Instance log_event_eq_dec : EqDecision log_event.
Proof. solve_decision. Defined.


(** The attributes of a [VectorService] together with what it acts on: the
    cache file and the log. *)
Record world := World {
  model_name : pystr;
  model : bool;                                   (* self.model is not None *)
  vectors : option (list vec);
  movie_ids : option (list pyval);
  id_to_meta : option (gmap pyval metadata);
  cache : cache_file;
  log : list log_event;
}.

(** What lies outside the repository. *)
Record env := Env {
  SentenceTransformer : res ();                   (* loading the encoder *)
  encode : list pystr → res (list vec);           (* model.encode(sentences) *)
  get_all_movies : res (list (list pyval));       (* repo.get_all_movies() *)
  cosine : vec → vec → score;                     (* one cell of cosine_similarity *)
  argsort : list score → list nat;                (* np.argsort *)
  score_leb : score → score → bool;               (* the order argsort sorts by *)
  percent : score → score;                        (* round(float(s) * 100, 1) *)
  open_wb : res ();                               (* open(cache_path, "wb") *)
  pickle_dump : res ();                           (* pickle.dump(..., f) *)
}.

(** [VectorService.__init__] *)
Definition init (name : pystr) (c : cache_file) : world :=
  World name false None None None c [].

Definition default_model_name : pystr := lit "BAAI/bge-large-zh-v1.5".

(** The triple a reader of the index sees. *)
Definition generation (w : world) :=
  (vectors w, movie_ids w, id_to_meta w).

Definition set_model (b : bool) (w : world) : world :=
  World (model_name w) b (vectors w) (movie_ids w) (id_to_meta w) (cache w) (log w).
Definition set_vectors (v : option (list vec)) (w : world) : world :=
  World (model_name w) (model w) v (movie_ids w) (id_to_meta w) (cache w) (log w).
Definition set_movie_ids (v : option (list pyval)) (w : world) : world :=
  World (model_name w) (model w) (vectors w) v (id_to_meta w) (cache w) (log w).
Definition set_id_to_meta (v : option (gmap pyval metadata)) (w : world) : world :=
  World (model_name w) (model w) (vectors w) (movie_ids w) v (cache w) (log w).
Definition set_cache (c : cache_file) (w : world) : world :=
  World (model_name w) (model w) (vectors w) (movie_ids w) (id_to_meta w) c (log w).
Definition add_log (ev : log_event) (w : world) : world :=
  World (model_name w) (model w) (vectors w) (movie_ids w) (id_to_meta w) (cache w)
        (log w ++ [ev]).

(** ** The monad of methods: state that survives a raised exception *)

Definition M (A : Type) : Type := world → res A * world.

#[local] Instance M_ret : MRet M := λ A a w, (Ok a, w).
#[local] Instance M_bind : MBind M := λ A B f m w,
  match m w with
  | (Ok a, w') => f a w'
  | (Raise e, w') => (Raise e, w')
  end.

Definition get : M world := λ w, (Ok w, w).
Definition modify (f : world → world) : M () := λ w, (Ok (), f w).
Definition logger (ev : log_event) : M () := modify (add_log ev).
Definition lift {A} (r : res A) : M A := λ w, (r, w).
Definition raise {A} (e : exn) : M A := λ w, (Raise e, w).

(** [try: body except Exception as e: handler(e)] *)
Definition try_except {A} (body : M A) (handler : exn → M A) : M A := λ w,
  match body w with
  | (Ok a, w') => (Ok a, w')
  | (Raise e, w') => handler e w'
  end.

Variable E : env.

(** ** Building the index *)

Definition _load_model : M () :=
  w ← get;
  if model w then mret ()
  else
    logger ModelLoading;;
    try_except
      (lift (SentenceTransformer E);; modify (set_model true);; logger ModelLoaded)
      (λ e, logger (ModelLoadFailed e);; raise e).

(** [open(..., "wb")] truncates the file before anything is written: when
    [pickle.dump] raises after it, what is left of the file cannot be
    unpickled. *)
Definition _save_to_cache : M () :=
  lift (open_wb E);;
  modify (set_cache Unreadable);;
  w ← get;
  lift (pickle_dump E);;
  modify (set_cache (Pickled (Bundle (Some (vectors w)) (Some (movie_ids w))
                                     (Some (id_to_meta w))))).

(** [data[key]] on the unpickled dictionary. *)
Definition bundle_item {A} (field : option A) : M A :=
  match field with
  | Some v => mret v
  | None => raise KeyError
  end.

Definition _load_from_cache : M () :=
  w ← get;
  match cache w with
  | NoFile => raise OSError
  | Unreadable => raise UnpicklingError
  | Pickled data =>
      v ← bundle_item (b_vectors data); modify (set_vectors v);;
      ids ← bundle_item (b_movie_ids data); modify (set_movie_ids ids);;
      metas ← bundle_item (b_id_to_meta data); modify (set_id_to_meta metas)
  end.

(** The test of the comprehension at line 73:
    [m[6] and len(m[6].strip()) > 5]. *)
Definition indexable (m : list pyval) : res bool :=
  intro ← item m 6;
  if truthy intro then
    match intro with
    | PStr s => Ok (bool_decide (5 < length (strip s))%nat)
    | _ => Raise AttributeError
    end
  else Ok false.

(** [m[i] if len(m) > i else ''] *)
Definition item_or_empty (m : list pyval) (i : nat) : pyval :=
  default (PStr []) (m !! i).

(** The sentence encoded for one movie (lines 87 to 106). *)
Definition sentence (m : list pyval) : res pystr :=
  title ← item m 3;
  intro ← item m 6;
  let year := item_or_empty m 7 in
  let country := item_or_empty m 8 in
  let category := item_or_empty m 9 in
  let directors := item_or_empty m 10 in
  let actors := item_or_empty m 11 in
  let meta_part := [30005; 24433; 12298]%N ++ str title ++ [12299]%N in
  let meta_part :=
    if truthy year
    then meta_part ++ [20110]%N ++ str year ++ [24180; 19978; 26144]%N
    else meta_part in
  let meta_part :=
    if truthy country
    then meta_part ++ [65292; 20135; 22320]%N ++ str country
    else meta_part in
  let meta_part :=
    if truthy category
    then meta_part ++ [65292; 31867; 22411; 20026]%N ++ str category
    else meta_part in
  let staff_part := [] in
  let staff_part :=
    if truthy directors
    then staff_part ++ [12290; 30001]%N ++ str directors ++ [25191; 23548]%N
    else staff_part in
  let staff_part :=
    if truthy actors
    then staff_part ++ [65292]%N ++ str actors ++ [20027; 28436]%N
    else staff_part in
  Ok (meta_part ++ staff_part
      ++ [12290; 21095; 24773; 31616; 20171; 65306]%N ++ str intro).

(** One entry of the dictionary comprehension at lines 111 to 124. *)
Definition meta_entry (m : list pyval) : res (pyval * metadata) :=
  k ← item m 0;
  title ← item m 3; score_ ← item m 4; pic ← item m 2; intro ← item m 6;
  url ← item m 1; year ← item m 7; country ← item m 8;
  category ← item m 9; director ← item m 10; actor ← item m 11;
  Ok (k, <["title" := title]> (<["score" := score_]> (<["pic" := pic]>
         (<["intro" := intro]> (<["url" := url]> (<["year" := year]>
         (<["country" := country]> (<["category" := category]>
         (<["director" := director]> (<["actor" := actor]> ∅)))))))))).

(** A later entry with the same key replaces an earlier one. *)
Definition dict_of (entries : list (pyval * metadata)) : gmap pyval metadata :=
  foldl (λ d kv, <[kv.1 := kv.2]> d) ∅ entries.

(** [len(x)] for an attribute that may still be [None]. *)
Definition len {A} (x : option (list A)) : res nat :=
  match x with
  | Some l => Ok (length l)
  | None => Raise TypeError
  end.

(** Lines 54 to 65; the result says whether [build_index] returns there. *)
Definition try_cache : M bool :=
  try_except
    (_load_from_cache;;
     movies ← lift (get_all_movies E);
     let db_count := length movies in
     w ← get;
     cached ← lift (len (movie_ids w));
     if bool_decide (cached = db_count)
     then logger CacheAdopted;; mret true
     else logger (CacheStale db_count cached);; mret false)
    (λ e, logger (CacheLoadFailed e);; mret false).

(** Lines 67 to 130: the rebuild from the database. *)
Definition rebuild : M () :=
  _load_model;;
  logger Building;;
  movies ← lift (get_all_movies E);
  valid_movies ← lift (res_filterM indexable movies);
  match valid_movies with
  | [] => logger NoValidMovies
  | _ :: _ =>
      sentences ← lift (res_mapM sentence valid_movies);
      ids ← lift (res_mapM (λ m, item m 0) valid_movies);
      modify (set_movie_ids (Some ids));;
      entries ← lift (res_mapM meta_entry valid_movies);
      modify (set_id_to_meta (Some (dict_of entries)));;
      logger (Encoding (length sentences));;
      vs ← lift (encode E sentences);
      modify (set_vectors (Some vs));;
      _save_to_cache;;
      logger Built
  end.

Definition exists_ (c : cache_file) : bool :=
  match c with
  | NoFile => false
  | _ => true
  end.

(** [x is not None] *)
Definition not_none {A} (x : option A) : bool :=
  match x with
  | Some _ => true
  | None => false
  end.

(** [build_index]; the lock is held from entry to exit, and calls are taken
    one at a time here. *)
Definition build_index (force_refresh : bool) : M () :=
  w ← get;
  if negb force_refresh && not_none (vectors w) then mret ()
  else
    returned ← (if negb force_refresh && exists_ (cache w)
                then try_cache else mret false);
    if returned : bool then mret () else rebuild.

(** ** Queries *)

(** One element of the result list of either query. *)
Record hit := Hit {
  h_id : pyval;
  h_title : pyval;
  h_score : pyval;
  h_pic : pyval;
  h_intro : pystr;
  h_url : option pyval;          (* only [search] fills it *)
  h_year : pyval;
  h_similarity : score;
}.

(** [d[k]] *)
Definition getitem (d : metadata) (k : string) : res pyval :=
  match d !! k with
  | Some v => Ok v
  | None => Raise KeyError
  end.

(** [d.get(k, "")] *)
Definition get_or_empty (d : metadata) (k : string) : pyval :=
  default (PStr []) (d !! k).

(** [y < bound] and [y > bound] for an integer [y] and a filter value. *)
Definition int_lt (y : Z) (bound : pyval) : res bool :=
  match bound with
  | PInt z => Ok (y <? z)
  | _ => Raise TypeError
  end.

Definition int_gt (y : Z) (bound : pyval) : res bool :=
  match bound with
  | PInt z => Ok (z <? y)
  | _ => Raise TypeError
  end.

(** Lines 194 to 198.  [Ok false] stands for [continue]. *)
Definition year_filter (filters meta : metadata) : res bool :=
  match filters !! "year_min", filters !! "year_max" with
  | None, None => Ok true
  | lo, hi =>
      let y := default 0 (search_year (str (get_or_empty meta "year"))) in
      below ← match lo with Some bound => int_lt y bound | None => Ok false end;
      if below : bool then Ok false
      else
        above ← match hi with Some bound => int_gt y bound | None => Ok false end;
        Ok (negb above)
  end.

(** One of the four substring filters, e.g. lines 201 and 202. *)
Definition substring_filter (key : string) (filters meta : metadata) : res bool :=
  match filters !! key with
  | Some wanted =>
      if truthy wanted then
        match wanted with
        | PStr s => Ok (contains s (str (get_or_empty meta key)))
        | _ => Raise TypeError
        end
      else Ok true
  | None => Ok true
  end.

(** The body of the [try] at lines 192 to 214. *)
Definition eval_filters (filters meta : metadata) : res bool :=
  ok ← year_filter filters meta;
  if negb ok then Ok false else
  ok ← substring_filter "country" filters meta;
  if negb ok then Ok false else
  ok ← substring_filter "category" filters meta;
  if negb ok then Ok false else
  ok ← substring_filter "director" filters meta;
  if negb ok then Ok false else
  substring_filter "actor" filters meta.

(** The [try ... except Exception: pass] around it: whether the candidate
    goes on to be appended. *)
Definition passes (filters meta : metadata) : bool :=
  match eval_filters filters meta with
  | Ok b => b
  | Raise _ => true
  end.

(** [self.movie_ids[idx]], [self.vectors[idx]] *)
Definition index {A} (x : option (list A)) (idx : nat) : res A :=
  match x with
  | Some l => match l !! idx with Some a => Ok a | None => Raise IndexError end
  | None => Raise TypeError
  end.

(** [self.id_to_meta[movie_id]] *)
Definition lookup_meta (x : option (gmap pyval metadata)) (movie_id : pyval)
  : res metadata :=
  match x with
  | Some d => match d !! movie_id with Some m => Ok m | None => Raise KeyError end
  | None => Raise TypeError
  end.

(** The dictionary appended at lines 221 to 230. *)
Definition search_hit (movie_id : pyval) (meta : metadata) (s : score) : res hit :=
  title ← getitem meta "title";
  score_ ← getitem meta "score";
  pic ← getitem meta "pic";
  intro ← getitem meta "intro";
  short ← prefix_of intro 100;
  Ok (Hit movie_id title score_ pic (short ++ lit "...")
          (Some (get_or_empty meta "url")) (get_or_empty meta "year") s).

(** The loop at lines 183 to 230 over the remaining sorted indices. *)
Fixpoint search_loop (w : world) (top_k : Z) (filters : metadata)
    (similarity : list score) (sorted_indices : list nat) (results : list hit)
  : res (list hit) :=
  match sorted_indices with
  | [] => Ok results
  | idx :: rest =>
      if Z.of_nat (length results) >=? top_k then Ok results
      else
        s ← index (Some similarity) idx;
        movie_id ← index (movie_ids w) idx;
        meta ← lookup_meta (id_to_meta w) movie_id;
        if passes filters meta then
          h ← search_hit movie_id meta s;
          search_loop w top_k filters similarity rest (results ++ [h])
        else search_loop w top_k filters similarity rest results
  end.

Definition query_instruction : pystr :=
  [20026; 36825; 20010; 21477; 23376; 29983; 25104; 34920; 31034; 20197;
   29992; 20110; 26816; 32034; 30456; 20851; 25991; 31456; 65306]%N.

(** [cosine_similarity(X, Y)[0]] *)
Definition cosine_similarity_0 (X Y : list vec) : res (list score) :=
  match X with
  | x :: _ => Ok (cosine E x <$> Y)
  | [] => Raise IndexError
  end.

(** [search] from line 165 on, once the index has been asked for. *)
Definition ranked_search (query : pystr) (top_k : Z)
    (filters : option metadata) : M (list hit) :=
  w ← get;
  match vectors w with
  | None => mret []
  | Some vs =>
      if bool_decide (length vs = 0%nat) then mret [] else
      _load_model;;
      let query_text :=
        if contains (lit "bge") (lower (model_name w))
        then query_instruction ++ query else query in
      query_vec ← lift (encode E [query_text]);
      similarity ← lift (cosine_similarity_0 query_vec vs);
      let sorted_indices := reverse (argsort E similarity) in
      let filters := default ∅ filters in
      w ← get;
      lift (search_loop w top_k filters similarity sorted_indices [])
  end.

Definition search (query : pystr) (top_k : Z) (filters : option metadata)
  : M (list hit) :=
  w ← get;
  (if not_none (vectors w) then mret () else build_index false);;
  ranked_search query top_k filters.

(** [self.movie_ids.index(movie_id)]: the first position holding it. *)
Definition index_of (movie_id : pyval) (ids : list pyval) : option nat :=
  fst <$> list_find (λ x, x = movie_id) ids.

(** The dictionary appended at lines 270 to 282. *)
Definition similar_hit (mid : pyval) (meta : metadata) (s : score) : res hit :=
  title ← getitem meta "title";
  score_ ← getitem meta "score";
  pic ← getitem meta "pic";
  intro ← getitem meta "intro";
  short ← prefix_of intro 60;
  Ok (Hit mid title score_ pic (short ++ lit "...") None
          (get_or_empty meta "year") (percent E s)).

(** The loop at lines 265 to 282. *)
Fixpoint similar_loop (w : world) (similarity : list score)
    (top_indices : list nat) : res (list hit) :=
  match top_indices with
  | [] => Ok []
  | i :: rest =>
      s ← index (Some similarity) i;
      mid ← index (movie_ids w) i;
      meta ← lookup_meta (id_to_meta w) mid;
      h ← similar_hit mid meta s;
      hs ← similar_loop w similarity rest;
      Ok (h :: hs)
  end.

Definition search_by_id (movie_id : pyval) (top_k : Z) : M (list hit) :=
  w ← get;
  (if not_none (vectors w) then mret () else build_index false);;
  w ← get;
  match movie_ids w with
  | None => raise TypeError            (* [movie_id not in None] *)
  | Some ids =>
      match index_of movie_id ids with
      | None => mret []
      | Some idx =>
          target_vec ← lift (index (vectors w) idx);
          let similarity := cosine E target_vec <$> default [] (vectors w) in
          let top_indices := slice (reverse (argsort E similarity)) 1 (top_k + 1) in
          lift (similar_loop w similarity top_indices)
      end
  end.

End VectorService.

#[global] Existing Instance M_ret.
#[global] Existing Instance M_bind.

(** ** The vocabulary of the properties *)

Section Vocabulary.

Context {vec score : Type}.
Implicit Types (E : @env vec score) (w : @world vec).

(** The precondition on the table: the identifier column has no duplicates. *)
Definition unique_ids (movies : list (list pyval)) : Prop :=
  NoDup (omap (λ m, m !! 0%nat) movies).

(** The generation is the one a rebuild computes from the table. *)
Definition built_from E w : Prop :=
  ∃ movies valid sentences ids entries vs,
    get_all_movies E = Ok movies ∧
    res_filterM indexable movies = Ok valid ∧ valid ≠ [] ∧
    res_mapM sentence valid = Ok sentences ∧
    res_mapM (λ m, item m 0) valid = Ok ids ∧
    res_mapM meta_entry valid = Ok entries ∧
    encode E sentences = Ok vs ∧
    generation w = (Some vs, Some ids, Some (dict_of entries)).

(** The alignment of a generation with the rows [valid] it was built from:
    equal lengths, every identifier a key, and position [i] of the identifier
    list, row [i] of the matrix and the metadata under that identifier all
    coming from [valid !! i]. *)
Definition aligned E w : Prop :=
  ∃ vs ids metas valid sentences,
    generation w = (Some vs, Some ids, Some metas) ∧
    length ids = length vs ∧ size metas = length ids ∧
    (∀ id, id ∈ ids → is_Some (metas !! id)) ∧
    res_mapM sentence valid = Ok sentences ∧ encode E sentences = Ok vs ∧
    ∀ i id, ids !! i = Some id →
      ∃ m s md, valid !! i = Some m ∧ m !! 0%nat = Some id ∧
                sentences !! i = Some s ∧ sentence m = Ok s ∧
                is_Some (vs !! i) ∧
                meta_entry m = Ok (id, md) ∧ metas !! id = Some md.

(** The encoder is available: loaded already, or loading succeeds. *)
Definition encoder_available E w : Prop :=
  model w = true ∨ SentenceTransformer E = Ok ().

(** The state after [_load_from_cache] has assigned all three attributes. *)
Definition loaded (v : option (list vec)) (ids : option (list pyval))
    (metas : option (gmap pyval metadata)) w : world :=
  set_id_to_meta metas (set_movie_ids ids (set_vectors v w)).

(** The length of the description of a row after trimming; a row without a
    text in column 6 has none. *)
Definition trimmed_length (m : list pyval) : nat :=
  match m !! 6%nat with
  | Some (PStr d) => length (strip d)
  | _ => 0
  end.

(** Row [i] of the generation resolves to metadata that the filters let
    through (a filter that raises lets the row through). *)
Definition row_passes w (filters : metadata) (i : nat) : bool :=
  match index (movie_ids w) i with
  | Ok movie_id =>
      match lookup_meta (id_to_meta w) movie_id with
      | Ok meta => passes filters meta
      | Raise _ => false
      end
  | Raise _ => false
  end.

(** The number of rows of the matrix. *)
Definition rows w : nat := length (default [] (vectors w)).

Definition passing_rows w (filters : metadata) : list nat :=
  filter (λ i, row_passes w filters i = true) (seq 0 (rows w)).

(** The cache phase of a non-forced build assigns nothing from this file:
    there is no file, unpickling it raises, or the unpickled dictionary has
    no "vectors" entry, which is the first one read. *)
Definition loads_nothing (c : @cache_file vec) : Prop :=
  match c with
  | NoFile | Unreadable => True
  | Pickled d => b_vectors d = None
  end.

(** The attempt reaches the rebuild with the generation it was called on:
    it is forced, or there is nothing in memory and the cache phase assigns
    nothing. *)
Definition starts_clean (force : bool) w : Prop :=
  force = true ∨ (vectors w = None ∧ loads_nothing (cache w)).

(** *** The vocabulary of the further properties *)

(** What [_save_to_cache] pickles in state [w]: its three attributes. *)
Definition saved w : @cache_file vec :=
  Pickled (Bundle (Some (vectors w)) (Some (movie_ids w)) (Some (id_to_meta w))).

(** The year the year filter compares with its bounds: the leftmost four
    digits of the "year" field written as text, 0 when there are none. *)
Definition year_of (meta : metadata) : Z :=
  default 0 (search_year (str (get_or_empty meta "year"))).

Definition in_year_range (filters meta : metadata) : Prop :=
  (∀ lo, filters !! "year_min" = Some (PInt lo) → lo ≤ year_of meta) ∧
  (∀ hi, filters !! "year_max" = Some (PInt hi) → year_of meta ≤ hi).

(** A non-empty text under [key] in the filters occurs in the field [key]
    of the metadata written as text. *)
Definition mentions (key : string) (filters meta : metadata) : Prop :=
  ∀ s, filters !! key = Some (PStr s) → s ≠ [] →
       contains s (str (get_or_empty meta key)) = true.

(** Filters as the docstring of [search] describes them: integer year
    bounds, and text (or a value that counts as false) under the four
    substring keys. *)
Definition int_or_absent (v : option pyval) : bool :=
  match v with
  | None | Some (PInt _) => true
  | Some _ => false
  end.

Definition text_or_falsy (v : option pyval) : bool :=
  match v with
  | None | Some (PStr _) => true
  | Some v => negb (truthy v)
  end.

Definition well_typed (filters : metadata) : bool :=
  int_or_absent (filters !! "year_min") &&
  int_or_absent (filters !! "year_max") &&
  forallb (λ key, text_or_falsy (filters !! key))
          ["country"; "category"; "director"; "actor"].

(** [h] is the result [search] builds for row [i] of the generation, at the
    similarity [sim] has for that row. *)
Definition hit_of_row w (sim : list score) (i : nat) (h : @hit score) : Prop :=
  ∃ s movie_id meta,
    sim !! i = Some s ∧ index (movie_ids w) i = Ok movie_id ∧
    lookup_meta (id_to_meta w) movie_id = Ok meta ∧
    search_hit movie_id meta s = Ok h.

(** [argsort] returns the positions in ascending order of their values. *)
Definition ascending E : Prop :=
  ∀ l i j a b sa sb,
    (i < j)%nat → argsort E l !! i = Some a → argsort E l !! j = Some b →
    l !! a = Some sa → l !! b = Some sb → score_leb E sa sb = true.

(** Metadata from which both queries can build a result. *)
Definition displayable (md : metadata) : Prop :=
  is_Some (md !! "title") ∧ is_Some (md !! "score") ∧ is_Some (md !! "pic") ∧
  ∃ s, md !! "intro" = Some (PStr s).

(** A generation whose rows all resolve: as many identifiers as vectors,
    and displayable metadata under every identifier. *)
Definition servable w : Prop :=
  ∃ vs ids metas,
    generation w = (Some vs, Some ids, Some metas) ∧
    length ids = length vs ∧
    ∀ id, id ∈ ids → ∃ md, metas !! id = Some md ∧ displayable md.

(** The result [h] displays the fields of the table row [m], its
    description cut after [n] characters. *)
Definition shows (n : nat) (m : list pyval) (h : @hit score) : Prop :=
  m !! 0%nat = Some (h_id h) ∧ m !! 3%nat = Some (h_title h) ∧
  m !! 4%nat = Some (h_score h) ∧ m !! 2%nat = Some (h_pic h) ∧
  m !! 7%nat = Some (h_year h) ∧
  ∃ d, m !! 6%nat = Some (PStr d) ∧ h_intro h = take n d ++ lit "...".

End Vocabulary.

(** ** A concrete environment

    Small stand-ins for the collaborators, used to run the model: vectors are
    integer vectors, the encoder maps a sentence to a vector that depends on
    the sentence alone, and [argsort] is the stable insertion sort numpy
    applies to short arrays. *)

Module Demo.

(** A row of the movie table: id, url, pic, title, score, rated, intro, year,
    country, category, directors, actors. *)
Definition row (id : Z) (title : string) (year : Z) (intro : string)
  : list pyval :=
  [PInt id; PStr (lit "https://movie.douban.com/"); PStr (lit "poster.jpg");
   PStr (lit title); PStr (lit "9.1"); PInt 1000; PStr (lit intro); PInt year;
   PStr (lit "US"); PStr (lit "Drama"); PStr (lit "Someone");
   PStr (lit "Somebody")].

Definition embed (s : pystr) : list Z :=
  [Z.of_nat (length s); Z.of_N (foldr N.add 0%N s) `mod` 101].

(** The negated squared distance: it orders unit vectors as their cosine
    does ([cos = 1 - d^2 / 2]) and is greatest between a vector and itself. *)
Fixpoint closeness (x y : list Z) : Z :=
  match x, y with
  | a :: x', b :: y' => closeness x' y' - (a - b) * (a - b)
  | _, _ => 0
  end.

Fixpoint insert_sorted (x : nat * Z) (l : list (nat * Z)) : list (nat * Z) :=
  match l with
  | [] => [x]
  | y :: l' => if x.2 <? y.2 then x :: l else y :: insert_sorted x l'
  end.

Definition stable_argsort (l : list Z) : list nat :=
  (foldl (λ acc x, insert_sorted x acc) [] (imap pair l)).*1.

Definition demo_env (load : res ()) (fails : bool)
    (movies : res (list (list pyval))) : @env (list Z) Z :=
  {| SentenceTransformer := load;
     encode := λ ss, if fails then Raise EncodeError else Ok (embed <$> ss);
     get_all_movies := movies;
     cosine := closeness;
     argsort := stable_argsort;
     score_leb := Z.leb;
     percent := λ s, s * 100;
     open_wb := Ok ();
     pickle_dump := Ok () |}.

(** The collaborators all working, over a given table. *)
Definition online (movies : list (list pyval)) : @env (list Z) Z :=
  demo_env (Ok ()) false (Ok movies).

(** A fresh service, as [app.py] creates it, before any cache file exists. *)
Definition fresh : @world (list Z) := init default_model_name NoFile.

(** The state a method leaves behind, and the value of a result. *)
Definition after {A} (m : @M (list Z) A) (w : world) : world := (m w).2.

(** The identifiers of a result list. *)
Definition hit_ids (r : res (list (@hit Z))) : res (list pyval) :=
  match r with
  | Ok hits => Ok (h_id <$> hits)
  | Raise e => Raise e
  end.

Definition is_ok {A} (r : res A) : bool :=
  match r with
  | Ok _ => true
  | Raise _ => false
  end.

Definition value {A} (d : A) (r : res A) : A :=
  match r with
  | Ok a => a
  | Raise _ => d
  end.

Definition two_movies : list (list pyval) :=
  [row 1 "The Shawshank Redemption" 1994 "A banker is sent to prison.";
   row 2 "Forrest Gump" 1994 "hello world"].

Definition short_movie : list pyval := row 3 "Untitled" 2001 "short".

Definition three_movies : list (list pyval) := two_movies ++ [short_movie].

(** The same film stored under two identifiers, and another one. *)
Definition duplicated : list (list pyval) :=
  [row 1 "Forrest Gump" 1994 "Life is like a box of chocolates.";
   row 2 "Forrest Gump" 1994 "Life is like a box of chocolates.";
   row 3 "Heat" 1995 "A detective hunts a crew of robbers."].

(** A service that has built its index over [two_movies]. *)
Definition serving : world := after (build_index (online two_movies) false) fresh.

(** A new process that finds the cache file [serving] wrote. *)
Definition restarted : world := init default_model_name (cache serving).

(** That process after it adopted the file: an index, no encoder loaded. *)
Definition adopted : world :=
  after (build_index (online two_movies) false) restarted.

(** A filter value an answer parsed from JSON can carry: the year as text. *)
Definition text_year_filter : metadata := {["year_min" := PStr (lit "2000")]}.

(** The result built for row 1 of [serving] at similarity 20. *)
Definition gump_hit : @hit Z :=
  Hit (PInt 2) (PStr (lit "Forrest Gump")) (PStr (lit "9.1"))
      (PStr (lit "poster.jpg")) (lit "hello world...")
      (Some (PStr (lit "https://movie.douban.com/"))) (PInt 1994) 20.

(** A row cut off after the rating column: it has no description column. *)
Definition cut_row : list pyval :=
  take 6 (row 9 "Cut" 2001 "A description that is long enough.").

(** A row of a table without the four columns added last. *)
Definition narrow_row : list pyval :=
  take 8 (row 7 "Narrow" 1999 "A description that is long enough.").

(** One identifier stored twice. *)
Definition reissued : list (list pyval) :=
  [row 1 "Heat" 1995 "A detective hunts a crew of robbers.";
   row 1 "Heat (remastered)" 2005 "A detective hunts a crew of robbers again."].

(** Filters as an answer parsed from JSON carries them when well formed. *)
Definition nineties_us : metadata :=
  <["year_min" := PInt 1990]> (<["year_max" := PInt 1999]>
    {["country" := PStr (lit "US")]}).

(** The events of a build from scratch over two indexable rows. *)
Definition first_build : list log_event :=
  [ModelLoading; ModelLoaded; Building; Encoding 2; Built].

(** The metadata kept for "Forrest Gump" in [serving]. *)
Definition gump_meta : metadata :=
  value ∅ (lookup_meta (id_to_meta serving) (PInt 2)).

(** The collaborators all working, except that [pickle.dump] raises: the
    disk is full. *)
Definition disk_full (movies : list (list pyval)) : @env (list Z) Z :=
  {| SentenceTransformer := Ok ();
     encode := λ ss, Ok (embed <$> ss);
     get_all_movies := Ok movies;
     cosine := closeness;
     argsort := stable_argsort;
     score_leb := Z.leb;
     percent := λ s, s * 100;
     open_wb := Ok ();
     pickle_dump := Raise OSError |}.

(** A fresh service with an encoder that is not a BGE model. *)
Definition fresh_minilm : @world (list Z) :=
  init (lit "all-MiniLM-L6-v2") NoFile.

End Demo.

(** ** Properties *)

Ltac run :=
  repeat (progress (unfold mbind, M_bind, mret, M_ret, get, modify, logger,
                    lift, raise, try_except, bundle_item in *; simpl in * )).

Ltac exec := repeat (run; try case_match; simplify_eq).

(** The same for expressions that only raise. *)
Ltac rsimpl :=
  repeat (progress (unfold mbind, res_bind, mret, res_ret in *; simpl in * )).

Lemma app_same_inv {A} (l k : list A) : l = l ++ k → k = [].
Proof.
  intros H. apply (f_equal length) in H. rewrite length_app in H.
  destruct k; [done | simpl in H; lia].
Qed.

(** Evaluates both sides of a closed equation. *)
Ltac evaluate := vm_compute; reflexivity.

(** Compares the log after a run with the log before it. *)
Ltac log_events H :=
  simpl in H; rewrite <- ?app_assoc in H;
  first [ apply app_inv_head in H | apply app_same_inv in H ];
  simpl in H; subst.

Section Properties.

Context {vec score : Type}.
Implicit Types (E : @env vec score) (w : @world vec).

(** *** Comprehensions *)

Lemma res_mapM_Forall2 {A B} (f : A → res B) l l' :
  res_mapM f l = Ok l' → Forall2 (λ x y, f x = Ok y) l l'.
Proof.
  revert l'. induction l as [|x l IH]; intros l' H; simpl in H.
  - by simplify_eq.
  - destruct (f x) eqn:Hx; simpl in H; [|done].
    destruct (res_mapM f l) eqn:Hl; simpl in H; [|done].
    simplify_eq. constructor; auto.
Qed.

Lemma res_mapM_length {A B} (f : A → res B) l l' :
  res_mapM f l = Ok l' → length l' = length l.
Proof. intros H. symmetry. by eapply Forall2_length, res_mapM_Forall2. Qed.

Lemma res_mapM_lookup {A B} (f : A → res B) l l' i y :
  res_mapM f l = Ok l' → l' !! i = Some y → ∃ x, l !! i = Some x ∧ f x = Ok y.
Proof.
  intros H Hy. apply res_mapM_Forall2 in H.
  destruct (Forall2_lookup_r _ _ _ _ _ H Hy) as (x & ? & ?). eauto.
Qed.

Lemma res_filterM_filter {A} (p : A → res bool) l l' :
  res_filterM p l = Ok l' → l' = filter (λ x, p x = Ok true) l.
Proof.
  revert l'. induction l as [|x l IH]; intros l' H; simpl in H.
  - by simplify_eq.
  - destruct (p x) as [b|] eqn:Hx; simpl in H; [|done].
    destruct (res_filterM p l) eqn:Hl; simpl in H; [|done].
    simplify_eq. rewrite filter_cons. rewrite <- (IH _ eq_refl).
    destruct b; case_decide; congruence.
Qed.

Lemma res_filterM_total {A} (p : A → res bool) l l' x :
  res_filterM p l = Ok l' → x ∈ l → ∃ b, p x = Ok b.
Proof.
  revert l'. induction l as [|y l IH]; intros l' H Hx; simpl in H.
  - by apply elem_of_nil in Hx.
  - destruct (p y) as [b|] eqn:Hy; simpl in H; [|done].
    destruct (res_filterM p l) eqn:Hl; simpl in H; [|done].
    apply elem_of_cons in Hx as [->|Hx]; eauto.
Qed.

(** *** The dictionary comprehension *)

Lemma dict_of_snoc (entries : list (pyval * metadata)) k v :
  dict_of (entries ++ [(k, v)]) = <[k := v]> (dict_of entries).
Proof. unfold dict_of. by rewrite foldl_app. Qed.

Lemma dict_of_lookup_None (entries : list (pyval * metadata)) k :
  k ∉ entries.*1 → dict_of entries !! k = None.
Proof.
  induction entries as [|[k' v'] entries IH] using rev_ind; intros Hk.
  - done.
  - rewrite dict_of_snoc. rewrite fmap_app in Hk. simpl in Hk.
    apply not_elem_of_app in Hk as [Hk1 Hk2].
    apply not_elem_of_cons in Hk2 as [Hne _].
    rewrite lookup_insert_ne by done. by apply IH.
Qed.

Lemma dict_of_size (entries : list (pyval * metadata)) :
  NoDup entries.*1 → size (dict_of entries) = length entries.
Proof.
  induction entries as [|[k v] entries IH] using rev_ind; intros Hnd.
  - done.
  - rewrite dict_of_snoc, length_app. simpl.
    rewrite fmap_app in Hnd. apply NoDup_app in Hnd as (Hnd & Hk & _).
    rewrite map_size_insert_None, IH; [lia|done|].
    apply dict_of_lookup_None. intros Hin. apply (Hk k Hin).
    by apply list_elem_of_singleton.
Qed.

Lemma dict_of_lookup (entries : list (pyval * metadata)) k v :
  NoDup entries.*1 → (k, v) ∈ entries → dict_of entries !! k = Some v.
Proof.
  induction entries as [|[k' v'] entries IH] using rev_ind; intros Hnd Hin.
  - by apply elem_of_nil in Hin.
  - rewrite dict_of_snoc. rewrite fmap_app in Hnd.
    apply NoDup_app in Hnd as (Hnd & Hk & _).
    apply elem_of_app in Hin as [Hin|Hin].
    + rewrite lookup_insert_ne; [by apply IH|].
      intros ->. apply (Hk k); [|by apply list_elem_of_singleton].
      apply list_elem_of_fmap. by exists (k, v).
    + apply list_elem_of_singleton in Hin. simplify_eq.
      apply lookup_insert_eq.
Qed.

Lemma meta_entry_key m k md : meta_entry m = Ok (k, md) → m !! 0%nat = Some k.
Proof.
  unfold meta_entry, item.
  destruct (m !! 0%nat) as [k0|]; [|done].
  destruct (m !! 3%nat); [|done]. destruct (m !! 4%nat); [|done].
  destruct (m !! 2%nat); [|done]. destruct (m !! 6%nat); [|done].
  destruct (m !! 1%nat); [|done]. destruct (m !! 7%nat); [|done].
  destruct (m !! 8%nat); [|done]. destruct (m !! 9%nat); [|done].
  destruct (m !! 10%nat); [|done]. destruct (m !! 11%nat); [|done].
  intros H. injection H as -> _. done.
Qed.

(** *** The rebuild *)

Lemma rebuild_built E w w' evs :
  rebuild E w = (Ok (), w') → log w' = log w ++ evs → Built ∈ evs →
  built_from E w'.
Proof.
  unfold rebuild, _load_model, _save_to_cache.
  intros H Hlog Hin. exec.
  all: log_events Hlog.
  all: try (repeat (apply elem_of_cons in Hin as [?|Hin]; [done|]);
            by apply elem_of_nil in Hin).
  all: by eexists _, _, _, _, _, _.
Qed.

Lemma rebuild_log E w r w' :
  rebuild E w = (r, w') → ∃ evs, log w' = log w ++ evs.
Proof.
  unfold rebuild, _load_model, _save_to_cache.
  intros H. exec.
  all: simpl; rewrite <- ?app_assoc; eauto.
  all: by exists [].
Qed.

Lemma try_cache_log E w r w' :
  try_cache E w = (r, w') →
  ∃ b ev, r = Ok b ∧ log w' = log w ++ [ev] ∧ ev ≠ Built ∧ ev ≠ Building.
Proof.
  unfold try_cache, _load_from_cache.
  intros H. exec.
  all: simpl; eauto 10.
Qed.

Lemma build_index_built E force w w' evs :
  build_index E force w = (Ok (), w') → log w' = log w ++ evs → Built ∈ evs →
  built_from E w'.
Proof.
  unfold build_index. intros H Hlog Hin. run.
  destruct (negb force && not_none (vectors w)).
  { simplify_eq. log_events Hlog. by apply elem_of_nil in Hin. }
  destruct (negb force && exists_ (cache w)).
  - destruct (try_cache E w) as [r w1] eqn:Hc.
    destruct (try_cache_log _ _ _ _ Hc) as (b & ev & -> & Hl1 & Hev & _).
    destruct b.
    + simplify_eq. rewrite Hl1 in Hlog. log_events Hlog.
      apply list_elem_of_singleton in Hin. congruence.
    + destruct (rebuild_log _ _ _ _ H) as [evs1 Hl2].
      rewrite Hl2, Hl1 in Hlog. log_events Hlog.
      apply elem_of_cons in Hin as [?|Hin]; [congruence|].
      by eapply rebuild_built.
  - by eapply rebuild_built.
Qed.

Lemma NoDup_omap_filter {A B} (f : A → option B) (P : A → Prop)
    `{∀ x, Decision (P x)} (l : list A) :
  NoDup (omap f l) → NoDup (omap f (filter P l)).
Proof.
  induction l as [|x l IH]; [done|].
  rewrite filter_cons. simpl.
  destruct (decide (P x)); simpl; destruct (f x) eqn:Hx; auto.
  - rewrite !NoDup_cons. intros [Hb Hnd]. split; [|auto].
    rewrite list_elem_of_omap in *. intros (y & Hy & Hfy). apply Hb.
    apply list_elem_of_filter in Hy as [_ Hy]. eauto.
  - rewrite NoDup_cons. intros [_ Hnd]. auto.
Qed.

Lemma ids_omap (valid : list (list pyval)) ids :
  res_mapM (λ m, item m 0) valid = Ok ids → ids = omap (λ m, m !! 0%nat) valid.
Proof.
  intros H. apply res_mapM_Forall2 in H.
  induction H as [|m id valid ids Hm _ IH]; [done|].
  unfold item in Hm. simpl. destruct (m !! 0%nat); simplify_eq. by f_equal.
Qed.

Lemma entries_keys (valid : list (list pyval)) entries :
  res_mapM meta_entry valid = Ok entries →
  entries.*1 = omap (λ m, m !! 0%nat) valid.
Proof.
  intros H. apply res_mapM_Forall2 in H.
  induction H as [|m [k md] valid entries Hm _ IH]; [done|].
  apply meta_entry_key in Hm. simpl. rewrite Hm. by f_equal.
Qed.

(** C1. A generation produced by a build that ran to its end has an
    identifier list, a vector matrix and a metadata dictionary of one and the
    same length; position [i] of the identifier list and row [i] of the matrix
    come from the same record; every identifier is a key of the dictionary.
    The identifiers of the table are assumed unique, and the encoder is
    assumed to return one row per sentence. *)
Theorem build_index_alignment E force w w' evs :
  (∀ ss vs, encode E ss = Ok vs → length vs = length ss) →
  (∀ movies, get_all_movies E = Ok movies → unique_ids movies) →
  build_index E force w = (Ok (), w') → log w' = log w ++ evs → Built ∈ evs →
  aligned E w'.
Proof.
  intros Hrows Huniq Hrun Hlog Hin.
  destruct (build_index_built _ _ _ _ _ Hrun Hlog Hin)
    as (movies & valid & sentences & ids & entries & vs
        & Hget & Hvalid & _ & Hsent & Hids & Hentries & Henc & Hgen).
  pose proof (res_mapM_length _ _ _ Hsent) as Hl1.
  pose proof (res_mapM_length _ _ _ Hids) as Hl2.
  pose proof (res_mapM_length _ _ _ Hentries) as Hl3.
  pose proof (Hrows _ _ Henc) as Hl4.
  assert (NoDup entries.*1) as Hnd.
  { rewrite (entries_keys _ _ Hentries).
    rewrite (res_filterM_filter _ _ _ Hvalid).
    apply NoDup_omap_filter, Huniq, Hget. }
  assert (∀ i id, ids !! i = Some id →
      ∃ m s md, valid !! i = Some m ∧ m !! 0%nat = Some id ∧
                sentences !! i = Some s ∧ sentence m = Ok s ∧
                is_Some (vs !! i) ∧
                meta_entry m = Ok (id, md) ∧ dict_of entries !! id = Some md)
    as Hrow.
  { intros i id Hi.
    destruct (res_mapM_lookup _ _ _ _ _ Hids Hi) as (m & Hm & Hid).
    unfold item in Hid. destruct (m !! 0%nat) as [k|] eqn:Hk; simplify_eq.
    destruct (Forall2_lookup_l _ _ _ _ _ (res_mapM_Forall2 _ _ _ Hsent) Hm)
      as (s & Hs & Hms).
    destruct (Forall2_lookup_l _ _ _ _ _ (res_mapM_Forall2 _ _ _ Hentries) Hm)
      as ([k md] & He & Hme).
    pose proof (meta_entry_key _ _ _ Hme) as Hk'. simplify_eq.
    exists m, s, md. repeat split; auto.
    - apply lookup_lt_is_Some. apply lookup_lt_Some in Hi. lia.
    - apply dict_of_lookup; [done|]. apply list_elem_of_lookup. eauto. }
  exists vs, ids, (dict_of entries), valid, sentences.
  repeat split; auto.
  - lia.
  - rewrite dict_of_size by done. lia.
  - intros id Hid. apply list_elem_of_lookup in Hid as [i Hi].
    destruct (Hrow _ _ Hi) as (? & ? & md & ?). exists md. tauto.
Qed.

(** *** Failures during a build *)

Lemma build_index_rebuild E force w :
  force = true ∨ (vectors w = None ∧ cache w = NoFile) →
  build_index E force w = rebuild E w.
Proof.
  unfold build_index. run.
  intros [->|[Hv Hc]]; simpl; [done|].
  rewrite Hv, Hc. simpl. by rewrite !andb_false_r.
Qed.

Lemma load_model_available E w :
  encoder_available E w →
  ∃ w1, _load_model E w = (Ok (), w1) ∧ generation w1 = generation w ∧
        cache w1 = cache w ∧ model w1 = true ∧
        ∃ evs, log w1 = log w ++ evs ∧ (Built ∉ evs) ∧ (Building ∉ evs).
Proof.
  unfold encoder_available, _load_model. run.
  destruct (model w) eqn:Hm.
  - intros _. exists w. repeat split; auto.
    exists []. rewrite app_nil_r. split_and!; [done|apply not_elem_of_nil..].
  - intros [?|Hst]; [done|]. rewrite Hst. simpl.
    eexists. repeat split; auto.
    exists [ModelLoading; ModelLoaded]. simpl. rewrite <- app_assoc.
    split_and!; [done|..].
    all: repeat (apply not_elem_of_cons; split; [done|]); apply not_elem_of_nil.
Qed.

Lemma build_index_clean E force w :
  starts_clean force w →
  ∃ w1, build_index E force w = rebuild E w1 ∧ generation w1 = generation w ∧
        model w1 = model w ∧ cache w1 = cache w.
Proof.
  intros Hclean.
  destruct force; [|destruct Hclean as [?|[Hv Hc]]; [done|]].
  - exists w. by rewrite build_index_rebuild by auto.
  - destruct (cache w) as [| |d] eqn:Hfile.
    + exists w. by rewrite build_index_rebuild by auto.
    + exists (add_log (CacheLoadFailed UnpicklingError) w).
      assert (try_cache E w
              = (Ok false, add_log (CacheLoadFailed UnpicklingError) w)) as Ht.
      { unfold try_cache, _load_from_cache. run. by rewrite Hfile. }
      unfold build_index. run. rewrite Hv, Hfile. simpl. by rewrite Ht.
    + exists (add_log (CacheLoadFailed KeyError) w). simpl in Hc.
      assert (try_cache E w
              = (Ok false, add_log (CacheLoadFailed KeyError) w)) as Ht.
      { unfold try_cache, _load_from_cache. run. by rewrite Hfile, Hc. }
      unfold build_index. run. rewrite Hv, Hfile. simpl. by rewrite Ht.
Qed.

(** C2, as the code has it.  A build attempt that reaches the rebuild with
    the generation it was called on (it is forced, or there is nothing in
    memory and no cache file, a cache file that cannot be unpickled or one
    without a "vectors" entry) and fails before the first assignment of the
    rebuild, that is while loading the encoder, while fetching the records
    or while selecting the indexable ones, leaves the published generation,
    all three of matrix, identifier list and metadata, as it was. *)
Theorem build_failure_state E force w :
  starts_clean force w →
  (∀ e, model w = false → SentenceTransformer E = Raise e →
        ∃ w', build_index E force w = (Raise e, w') ∧
              generation w' = generation w) ∧
  (∀ e, encoder_available E w → get_all_movies E = Raise e →
        ∃ w', build_index E force w = (Raise e, w') ∧
              generation w' = generation w) ∧
  (∀ e movies, encoder_available E w → get_all_movies E = Ok movies →
        res_filterM indexable movies = Raise e →
        ∃ w', build_index E force w = (Raise e, w') ∧
              generation w' = generation w).
Proof.
  intros Hclean.
  destruct (build_index_clean E _ _ Hclean) as (w1 & -> & Hg1 & Hm1 & _).
  assert (encoder_available E w → encoder_available E w1) as Hav1.
  { unfold encoder_available. by rewrite Hm1. }
  split_and!.
  - intros e Hm Hst. unfold rebuild, _load_model. run.
    rewrite Hm1, Hm, Hst. simpl. eauto.
  - intros e Hav Hget.
    destruct (load_model_available _ _ (Hav1 Hav)) as (w2 & Hl & Hg & _).
    unfold rebuild. run. rewrite Hl, Hget. simpl.
    eexists. split; [reflexivity|]. unfold generation in *. simpl. congruence.
  - intros e movies Hav Hget Hsel.
    destruct (load_model_available _ _ (Hav1 Hav)) as (w2 & Hl & Hg & _).
    unfold rebuild. run. rewrite Hl, Hget. simpl. rewrite Hsel. simpl.
    eexists. split; [reflexivity|]. unfold generation in *. simpl. congruence.
Qed.

(** The attributes are assigned one after the other: when the batch [encode]
    raises, the identifier list and the metadata are already those of the
    current table, next to the matrix of before. *)
Lemma encode_failure_state E force w e movies valid sentences ids entries :
  force = true ∨ (vectors w = None ∧ cache w = NoFile) →
  encoder_available E w →
  get_all_movies E = Ok movies →
  res_filterM indexable movies = Ok valid → valid ≠ [] →
  res_mapM sentence valid = Ok sentences →
  res_mapM (λ m, item m 0) valid = Ok ids →
  res_mapM meta_entry valid = Ok entries →
  encode E sentences = Raise e →
  ∃ w', build_index E force w = (Raise e, w') ∧
        generation w' = (vectors w, Some ids, Some (dict_of entries)).
Proof.
  intros Hpath Hav Hget Hvalid Hne Hs Hids He Henc.
  rewrite (build_index_rebuild _ _ _ Hpath).
  destruct (load_model_available _ _ Hav) as (w1 & Hl & Hg & _).
  unfold rebuild. run. rewrite Hl, Hget. simpl. rewrite Hvalid. simpl.
  destruct valid as [|m valid]; [done|]. run.
  rewrite Hs. simpl. rewrite Hids. simpl. rewrite He. simpl.
  rewrite Henc. simpl. eexists. split; [reflexivity|].
  unfold generation in *. simpl. congruence.
Qed.

(** *** The cache file *)

Lemma try_cache_never_raises E w r w1 :
  try_cache E w = (r, w1) →
  ∃ b, r = Ok b ∧ model w1 = model w ∧ cache w1 = cache w.
Proof.
  unfold try_cache, _load_from_cache. intros H. exec.
  all: simpl; eauto.
Qed.

Lemma build_index_cached E w :
  vectors w = None → cache w ≠ NoFile →
  build_index E false w =
    match try_cache E w with
    | (Ok true, w1) => (Ok (), w1)
    | (_, w1) => rebuild E w1
    end.
Proof.
  intros Hv Hc. unfold build_index. run. rewrite Hv. simpl.
  destruct (cache w); [done| |]; simpl.
  all: destruct (try_cache E w) as [r w1] eqn:Ht.
  all: destruct (try_cache_never_raises _ _ _ _ Ht) as (b & -> & _).
  all: by destruct b.
Qed.

(** C7. A non-forced build with nothing in memory that finds a cache file
    unpickles it and compares the number of cached identifiers with the number
    of rows in the table.  Equal: the cached triple becomes the generation and
    the build returns.  Different, or the load raised anything: the build
    goes on with the rebuild.  Whatever the file holds, the result of the
    build is an adoption or the result of a rebuild. *)
Theorem cache_policy E w :
  vectors w = None → cache w ≠ NoFile →
  (∀ v ids metas movies,
     cache w = Pickled (Bundle (Some v) (Some (Some ids)) (Some metas)) →
     get_all_movies E = Ok movies →
     (length ids = length movies →
        build_index E false w
        = (Ok (), add_log CacheAdopted (loaded v (Some ids) metas w))) ∧
     (length ids ≠ length movies →
        build_index E false w
        = rebuild E (add_log (CacheStale (length movies) (length ids))
                             (loaded v (Some ids) metas w)))) ∧
  (∀ e w1, _load_from_cache w = (Raise e, w1) →
     build_index E false w = rebuild E (add_log (CacheLoadFailed e) w1)) ∧
  ((∃ w1, build_index E false w = (Ok (), w1) ∧
          last (log w1) = Some CacheAdopted) ∨
   (∃ w1, build_index E false w = rebuild E w1 ∧
          model w1 = model w ∧ cache w1 = cache w)).
Proof.
  intros Hv Hc. rewrite (build_index_cached _ _ Hv Hc).
  split; [|split].
  - intros v ids metas movies Hfile Hget.
    unfold try_cache, _load_from_cache. run. rewrite Hfile. simpl.
    rewrite Hget. simpl. split; intros Hlen; case_bool_decide; done.
  - intros e w1 Hload. unfold try_cache. run. by rewrite Hload.
  - destruct (try_cache E w) as [r w1] eqn:Ht.
    destruct (try_cache_never_raises _ _ _ _ Ht) as (b & -> & Hm & Hc').
    destruct b; [left|right; eauto].
    exists w1. split; [done|].
    revert Ht. unfold try_cache, _load_from_cache. intros Ht. exec.
    all: simpl; by rewrite last_snoc.
Qed.

(** *** Repeated and forced builds *)

Lemma rebuild_success E w movies valid sentences ids entries vs :
  encoder_available E w →
  get_all_movies E = Ok movies →
  res_filterM indexable movies = Ok valid → valid ≠ [] →
  res_mapM sentence valid = Ok sentences →
  res_mapM (λ m, item m 0) valid = Ok ids →
  res_mapM meta_entry valid = Ok entries →
  encode E sentences = Ok vs →
  open_wb E = Ok () → pickle_dump E = Ok () →
  ∃ w', rebuild E w = (Ok (), w') ∧
        generation w' = (Some vs, Some ids, Some (dict_of entries)) ∧
        cache w' = Pickled (Bundle (Some (Some vs)) (Some (Some ids))
                                   (Some (Some (dict_of entries)))) ∧
        ∃ evs, log w' = log w ++ evs ∧ Built ∈ evs.
Proof.
  intros Hav Hget Hvalid Hne Hs Hids He Henc Hopen Hdump.
  destruct (load_model_available _ _ Hav) as (w1 & Hl & Hg & _ & _ & evs & Hlog & _).
  unfold rebuild, _save_to_cache. run. rewrite Hl, Hget. simpl.
  rewrite Hvalid. simpl.
  destruct valid as [|m valid]; [done|]. run.
  rewrite Hs. simpl. rewrite Hids. simpl. rewrite He. simpl.
  rewrite Henc. simpl. rewrite Hopen. simpl. rewrite Hdump. simpl.
  eexists. split; [reflexivity|]. simpl. split; [done|split; [done|]].
  exists (evs ++ [Building; Encoding (length sentences); Built]).
  rewrite Hlog. rewrite <- !app_assoc. split; [done|].
  rewrite !elem_of_app, !elem_of_cons. tauto.
Qed.



Lemma built_from_vectors E w : built_from E w → vectors w ≠ None.
Proof.
  intros (? & ? & ? & ? & ? & vs & ? & ? & ? & ? & ? & ? & ? & Hg).
  unfold generation in Hg. injection Hg as Hv _ _. by rewrite Hv.
Qed.

Lemma res_filterM_none {A} (p : A → res bool) l :
  Forall (λ x, p x = Ok false) l → res_filterM p l = Ok [].
Proof.
  induction 1 as [|x l Hx _ IH]; [done|]. simpl. by rewrite Hx, IH.
Qed.

Lemma rebuild_none E w movies :
  encoder_available E w → get_all_movies E = Ok movies →
  Forall (λ m, indexable m = Ok false) movies →
  ∃ w', rebuild E w = (Ok (), w') ∧
        generation w' = generation w ∧ cache w' = cache w ∧
        last (log w') = Some NoValidMovies.
Proof.
  intros Hav Hget Hnone.
  destruct (load_model_available _ _ Hav) as (w1 & Hl & Hg & Hc & _).
  unfold rebuild. run. rewrite Hl, Hget. simpl.
  rewrite (res_filterM_none _ _ Hnone). simpl.
  eexists. split_and!; [done..|]. simpl. by rewrite last_snoc.
Qed.





(** *** Which records are indexed *)

Lemma indexable_true m : indexable m = Ok true → (5 < trimmed_length m)%nat.
Proof.
  unfold indexable, item, trimmed_length.
  destruct (m !! 6%nat) as [[| |d]|]; simpl; try done.
  - by case_match.
  - destruct d; simpl; [done|]. intros H. simplify_eq.
    by apply bool_decide_eq_true in H.
Qed.

Lemma indexable_long m : (5 < trimmed_length m)%nat → indexable m = Ok true.
Proof.
  unfold indexable, item, trimmed_length.
  destruct (m !! 6%nat) as [[| |d]|]; simpl; try lia.
  destruct d; simpl; [unfold strip; simpl; lia|].
  intros H. f_equal. by apply bool_decide_eq_true.
Qed.

(** C8. After a build that produced an index, the identifier list is the
    identifier column of the selected rows, in order, and a row of the table
    is selected exactly when its description, trimmed, is longer than five
    characters.  So a row whose trimmed description has five characters or
    fewer is left out, and one whose trimmed description has eleven is in. *)
Theorem index_membership E force w w' evs movies :
  get_all_movies E = Ok movies →
  build_index E force w = (Ok (), w') → log w' = log w ++ evs → Built ∈ evs →
  ∃ valid,
    movie_ids w' = Some (omap (λ m, m !! 0%nat) valid) ∧
    length (omap (λ m, m !! 0%nat) valid) = length valid ∧
    (∀ m, m ∈ valid ↔ m ∈ movies ∧ (5 < trimmed_length m)%nat) ∧
    (∀ m, m ∈ movies → (trimmed_length m ≤ 5)%nat → m ∉ valid) ∧
    (∀ m, m ∈ movies → trimmed_length m = 11%nat → m ∈ valid).
Proof.
  intros Hget Hrun Hlog Hin.
  destruct (build_index_built _ _ _ _ _ Hrun Hlog Hin)
    as (movies' & valid & sentences & ids & entries & vs
        & Hget' & Hvalid & _ & _ & Hids & _ & _ & Hgen).
  assert (movies' = movies) as -> by congruence.
  assert (∀ m, m ∈ valid ↔ m ∈ movies ∧ (5 < trimmed_length m)%nat) as Hiff.
  { intros m. rewrite (res_filterM_filter _ _ _ Hvalid), list_elem_of_filter.
    split.
    - intros [Hm ?]. split; [done|]. by apply indexable_true.
    - intros [? Hm]. split; [|done]. by apply indexable_long. }
  exists valid. unfold generation in Hgen. injection Hgen as _ Hids' _.
  rewrite Hids'. rewrite <- (ids_omap _ _ Hids).
  repeat split.
  - by apply res_mapM_length in Hids.
  - by apply Hiff.
  - by apply Hiff.
  - by apply Hiff.
  - intros m _ Hlen Hm. apply Hiff in Hm. lia.
  - intros m Hm Hlen. apply Hiff. split; [done|lia].
Qed.

(** *** The scan of [search] *)

Lemma search_loop_full w top_k filters (sim : list score) l acc :
  top_k ≤ Z.of_nat (length acc) →
  search_loop w top_k filters sim l acc = Ok acc.
Proof.
  intros Hk. destruct l as [|idx l]; [done|]. simpl.
  rewrite Z.geb_leb. by destruct (Z.leb_spec top_k (Z.of_nat (length acc))); [|lia].
Qed.

Lemma search_loop_app w top_k filters (sim : list score) l1 l2 acc :
  search_loop w top_k filters sim (l1 ++ l2) acc =
  acc' ← search_loop w top_k filters sim l1 acc;
  search_loop w top_k filters sim l2 acc'.
Proof.
  revert acc. induction l1 as [|idx l1 IH]; intros acc; [done|].
  simpl. rewrite Z.geb_leb.
  destruct (Z.leb_spec top_k (Z.of_nat (length acc))).
  { rsimpl. by rewrite search_loop_full. }
  destruct (sim !! idx) as [s|]; rsimpl; [|done].
  destruct (index (movie_ids w) idx) as [movie_id|]; rsimpl; [|done].
  destruct (lookup_meta (id_to_meta w) movie_id) as [meta|]; rsimpl; [|done].
  destruct (passes filters meta); [|apply IH].
  destruct (search_hit movie_id meta s); rsimpl; [apply IH|done].
Qed.

Lemma search_loop_bound w top_k filters (sim : list score) l acc hits :
  search_loop w top_k filters sim l acc = Ok hits →
  ∃ new, hits = acc ++ new ∧
         (length new ≤ length (filter (λ i, row_passes w filters i = true) l))%nat ∧
         Z.of_nat (length hits) ≤ Z.max top_k (Z.of_nat (length acc)).
Proof.
  revert acc. induction l as [|idx l IH]; intros acc; simpl.
  { intros ?. simplify_eq. exists []. rewrite app_nil_r. simpl. split_and!; [done|lia|lia]. }
  rewrite Z.geb_leb. destruct (Z.leb_spec top_k (Z.of_nat (length acc))).
  { intros ?. simplify_eq. exists []. rewrite app_nil_r. simpl. split_and!; [done|lia|lia]. }
  rewrite filter_cons.
  destruct (sim !! idx) as [s|]; rsimpl; [|done].
  destruct (index (movie_ids w) idx) as [movie_id|] eqn:Hid; rsimpl; [|done].
  destruct (lookup_meta (id_to_meta w) movie_id) as [meta|] eqn:Hmeta;
    rsimpl; [|done].
  destruct (passes filters meta) eqn:Hpass.
  - destruct (search_hit movie_id meta s) as [h|]; rsimpl; [|done].
    intros Hrun. destruct (IH _ Hrun) as (new & -> & Hlen & Hk).
    exists (h :: new). rewrite <- app_assoc.
    rewrite decide_True by (unfold row_passes; by rewrite Hid, Hmeta).
    rewrite !length_app in *. simpl in *. split_and!; [done|lia|lia].
  - intros Hrun. destruct (IH _ Hrun) as (new & -> & Hlen & Hk).
    exists new.
    rewrite decide_False by (unfold row_passes; by rewrite Hid, Hmeta, Hpass).
    split_and!; [done|lia|lia].
Qed.

(** C6. In the scan of [search], a candidate on which the evaluation of the
    filters raises any exception is appended to the results like one that
    passed, and the scan goes on with the candidates after it: the results of
    the whole scan are those of the remaining scan started from the results
    so far plus this candidate, which is therefore among the results. *)
Theorem filter_fault_is_pass w top_k filters (sim : list score)
    before idx after acc e s movie_id meta h :
  search_loop w top_k filters sim before [] = Ok acc →
  Z.of_nat (length acc) < top_k →
  index (Some sim) idx = Ok s →
  index (movie_ids w) idx = Ok movie_id →
  lookup_meta (id_to_meta w) movie_id = Ok meta →
  eval_filters filters meta = Raise e →
  search_hit movie_id meta s = Ok h →
  search_loop w top_k filters sim (before ++ idx :: after) []
  = search_loop w top_k filters sim after (acc ++ [h]) ∧
  ∀ hits, search_loop w top_k filters sim (before ++ idx :: after) [] = Ok hits →
          hits !! length acc = Some h.
Proof.
  intros Hbefore Hk Hs Hid Hmeta Hraise Hhit.
  assert (search_loop w top_k filters sim (before ++ idx :: after) []
          = search_loop w top_k filters sim after (acc ++ [h])) as Heq.
  { rewrite search_loop_app, Hbefore. rsimpl.
    rewrite Z.geb_leb. destruct (Z.leb_spec top_k (Z.of_nat (length acc))); [lia|].
    simpl in Hs. rewrite Hs, Hid, Hmeta. unfold passes. by rewrite Hraise, Hhit. }
  split; [done|].
  intros hits Hrun. rewrite Heq in Hrun.
  destruct (search_loop_bound _ _ _ _ _ _ _ Hrun) as (new & -> & _).
  rewrite <- app_assoc. by rewrite lookup_app_r, Nat.sub_diag.
Qed.

(** *** [search] *)

Lemma search_split E query top_k filters w :
  search E query top_k filters w =
  match (if not_none (vectors w) then (Ok (), w) else build_index E false w) with
  | (Ok _, w1) => ranked_search E query top_k filters w1
  | (Raise e, w1) => (Raise e, w1)
  end.
Proof.
  unfold search. run.
  destruct (not_none (vectors w)); [done|].
  by destruct (build_index E false w) as [[[]|e] w1].
Qed.

Lemma load_model_generation E w r w' :
  _load_model E w = (r, w') → generation w' = generation w.
Proof. unfold _load_model. intros H. by exec. Qed.

Lemma cosine_similarity_0_length E X (Y : list vec) sim :
  cosine_similarity_0 E X Y = Ok sim → length sim = length Y.
Proof.
  unfold cosine_similarity_0. destruct X; intros H; simplify_eq.
  by rewrite length_fmap.
Qed.

Lemma row_passes_generation w1 w2 filters i :
  generation w1 = generation w2 →
  row_passes w1 filters i = row_passes w2 filters i.
Proof.
  unfold generation, row_passes. intros H. injection H as _ -> ->. done.
Qed.

Lemma ranked_search_bounds E query top_k filters w hits w' :
  (∀ l, argsort E l ≡ₚ seq 0 (length l)) →
  ranked_search E query top_k filters w = (Ok hits, w') →
  generation w' = generation w ∧
  Z.of_nat (length hits) ≤ Z.max top_k 0 ∧
  (length hits ≤ length (passing_rows w' (default ∅ filters)))%nat.
Proof.
  intros Hperm. unfold ranked_search, passing_rows, rows. run.
  destruct (vectors w) as [vs|] eqn:Hvs.
  2: { intros ?. simplify_eq. simpl. split_and!; [done|lia|lia]. }
  case_bool_decide.
  { intros ?. simplify_eq. simpl. split_and!; [done|lia|lia]. }
  destruct (_load_model E w) as [[[]|e] w2] eqn:Hload; [|done].
  destruct (encode E _) as [query_vec|]; simpl; [|done].
  destruct (cosine_similarity_0 E query_vec vs) as [sim|] eqn:Hsim; simpl; [|done].
  intros Hrun. injection Hrun as Hrun <-.
  pose proof (load_model_generation _ _ _ _ Hload) as Hgen.
  destruct (search_loop_bound _ _ _ _ _ _ _ Hrun) as (new & -> & Hlen & Hk).
  split_and!; [done|simpl in *; lia|].
  simpl. etrans; [exact Hlen|].
  rewrite reverse_Permutation, Hperm.
  rewrite (cosine_similarity_0_length _ _ _ _ Hsim).
  assert (vectors w2 = Some vs) as ->.
  { unfold generation in Hgen. congruence. }
  done.
Qed.

Lemma ranked_search_empty E query top_k filters w :
  vectors w = None ∨ vectors w = Some [] →
  ranked_search E query top_k filters w = (Ok [], w).
Proof. unfold ranked_search. run. by intros [->| ->]. Qed.

(** C9. [search] returns at most [top_k] results, and no more than there
    are rows of the generation that the filters let through, hence no more
    than there are rows; it returns the empty list, not an exception, when
    after the build it asks for there is no matrix or a matrix without rows. *)
Theorem search_bounds E query top_k filters w :
  (∀ hits w',
     0 ≤ top_k → (∀ l, argsort E l ≡ₚ seq 0 (length l)) →
     search E query top_k filters w = (Ok hits, w') →
     Z.of_nat (length hits) ≤ top_k ∧
     (length hits ≤ length (passing_rows w' (default ∅ filters)))%nat ∧
     (length (passing_rows w' (default ∅ filters)) ≤ rows w')%nat) ∧
  (vectors w = Some [] → search E query top_k filters w = (Ok [], w)) ∧
  (∀ w1, vectors w = None → build_index E false w = (Ok (), w1) →
         vectors w1 = None ∨ vectors w1 = Some [] →
         search E query top_k filters w = (Ok [], w1)).
Proof.
  rewrite search_split. split_and!.
  - intros hits w' Hk Hperm Hrun.
    assert (∃ w1, ranked_search E query top_k filters w1 = (Ok hits, w'))
      as [w1 Hrank].
    { destruct (not_none (vectors w)); [by eauto|].
      destruct (build_index E false w) as [[[]|e] w1]; [by eauto|done]. }
    destruct (ranked_search_bounds _ _ _ _ _ _ _ Hperm Hrank) as (_ & ? & ?).
    split_and!; [lia|done|].
    unfold passing_rows. etrans; [apply length_filter|]. by rewrite length_seq.
  - intros Hv. rewrite Hv. simpl. apply ranked_search_empty. auto.
  - intros w1 Hv Hbuild Hv1. rewrite Hv, Hbuild. simpl.
    by apply ranked_search_empty.
Qed.

(** *** [search_by_id] *)

Lemma index_of_None (movie_id : pyval) ids :
  movie_id ∉ ids → index_of movie_id ids = None.
Proof.
  intros Hin. unfold index_of.
  destruct (list_find _ ids) as [[i x]|] eqn:Hfind; [|done].
  apply list_find_Some in Hfind as (Hi & -> & _).
  destruct Hin. apply list_elem_of_lookup. eauto.
Qed.

Lemma search_by_id_unknown E movie_id top_k w ids :
  vectors w ≠ None → movie_ids w = Some ids → movie_id ∉ ids →
  search_by_id E movie_id top_k w = (Ok [], w).
Proof.
  intros Hv Hids Hin. unfold search_by_id. run.
  destruct (vectors w); [|done]. simpl.
  by rewrite Hids, index_of_None.
Qed.

Lemma slice_single_from_1 {A} (x : A) stop : slice [x] 1 stop = [].
Proof.
  unfold slice. by destruct (Z.to_nat _) as [|[|n]].
Qed.

(** C10. When the generation holds one record, [search_by_id] on that
    record's identifier returns the empty list for every [top_k]: the ranking
    has one element and the slice starts after it.  Any other identifier
    gives the empty list as well, so the two cases look the same to a caller. *)
Theorem search_by_id_single E w v movie_id top_k :
  vectors w = Some [v] → movie_ids w = Some [movie_id] →
  (∀ l, argsort E l ≡ₚ seq 0 (length l)) →
  search_by_id E movie_id top_k w = (Ok [], w) ∧
  ∀ other, other ≠ movie_id → search_by_id E other top_k w = (Ok [], w).
Proof.
  intros Hv Hids Hperm. split.
  - unfold search_by_id. run. rewrite Hv. simpl. rewrite Hids.
    unfold index_of. simpl. rewrite decide_True by done. simpl.
    rewrite Hv. simpl.
    pose proof (Hperm [cosine E v v]) as Hp. simpl in Hp.
    apply Permutation_singleton_r in Hp. rewrite Hp.
    change (reverse [0%nat]) with [0%nat]. by rewrite slice_single_from_1.
  - intros other Hne. eapply search_by_id_unknown; [by rewrite Hv|done|].
    by apply not_elem_of_cons; split; [|apply not_elem_of_nil].
Qed.

(** *** [search_by_id] and the row it leaves out *)

Lemma similar_hit_id E mid meta (s : score) h :
  similar_hit E mid meta s = Ok h → h_id h = mid.
Proof.
  unfold similar_hit.
  destruct (getitem meta "title"); [|done].
  destruct (getitem meta "score"); [|done].
  destruct (getitem meta "pic"); [|done].
  destruct (getitem meta "intro") as [intro|]; [|done]. rsimpl.
  destruct (prefix_of intro 60); [|done].
  intros H. by simplify_eq.
Qed.

Lemma similar_loop_ids E w (sim : list score) idxs hits :
  similar_loop E w sim idxs = Ok hits →
  Forall2 (λ i h, index (movie_ids w) i = Ok (h_id h)) idxs hits.
Proof.
  revert hits. induction idxs as [|i idxs IH]; intros hits; simpl.
  { intros ?. simplify_eq. constructor. }
  destruct (sim !! i) as [s|]; rsimpl; [|done].
  destruct (index (movie_ids w) i) as [mid|] eqn:Hmid; rsimpl; [|done].
  destruct (lookup_meta (id_to_meta w) mid) as [meta|]; rsimpl; [|done].
  destruct (similar_hit E mid meta s) as [h|] eqn:Hh; rsimpl; [|done].
  destruct (similar_loop E w sim idxs) as [hs|]; rsimpl; [|done].
  intros ?. simplify_eq. constructor; [|by apply IH].
  by rewrite (similar_hit_id _ _ _ _ _ Hh).
Qed.

Lemma slice_pair {A} (x y : A) k : 1 ≤ k → slice [x; y] 1 (k + 1) = [y].
Proof.
  intros Hk. unfold slice. simpl length.
  destruct (Z.ltb_spec (k + 1) 0); [lia|].
  by rewrite Z.min_r by lia.
Qed.

Lemma slice_from_1 {A} (x y : A) l stop : y ∈ slice (x :: l) 1 stop → y ∈ l.
Proof.
  unfold slice. destruct (Z.to_nat _) as [|n]; simpl.
  - intros H. by apply elem_of_nil in H.
  - rewrite drop_0. intros H. apply elem_of_take in H as (i & Hi & _).
    apply list_elem_of_lookup. eauto.
Qed.

(** Two rows with one and the same vector tie in every ranking.  However
    [argsort] orders them, one of the two identifiers gets itself back. *)
Lemma search_by_id_tie E w v id1 id2 metas top_k :
  vectors w = Some [v; v] → movie_ids w = Some [id1; id2] → id1 ≠ id2 →
  id_to_meta w = Some metas →
  (∀ id s, id ∈ [id1; id2] →
           ∃ meta h, metas !! id = Some meta ∧ similar_hit E id meta s = Ok h) →
  (∀ l, argsort E l ≡ₚ seq 0 (length l)) →
  1 ≤ top_k →
  ∃ id hits, id ∈ [id1; id2] ∧
             search_by_id E id top_k w = (Ok hits, w) ∧
             id ∈ h_id <$> hits.
Proof.
  intros Hv Hids Hne Hmetas Hhit Hperm Hk.
  pose proof (Hperm [cosine E v v; cosine E v v]) as Hp. simpl in Hp.
  destruct (argsort E [cosine E v v; cosine E v v])
    as [|a [|b [|c l]]] eqn:Ha;
    try (apply Permutation_length in Hp; simpl in Hp; lia).
  assert (a ∈ [0; 1]%nat) as Hin.
  { rewrite <- Hp. apply list_elem_of_here. }
  assert (∀ id, [id1; id2] !! a = Some id →
                index_of id [id1; id2] = Some a →
                ∃ hits, search_by_id E id top_k w = (Ok hits, w) ∧
                        id ∈ h_id <$> hits) as Hcase.
  { intros id Hid Hidx.
    assert (id ∈ [id1; id2]) as Hmem by (apply list_elem_of_lookup; eauto).
    destruct (Hhit id (cosine E v v) Hmem) as (meta & h & Hmeta & Hh).
    exists [h]. unfold search_by_id. run. rewrite Hv. simpl.
    rewrite Hids, Hidx. simpl. rewrite Hv. simpl.
    apply elem_of_cons in Hin as [->|Hin];
      [|apply list_elem_of_singleton in Hin as ->].
    all: simpl in *; simplify_eq; rewrite Ha.
    all: change (reverse [?x; b]) with [b; x]; rewrite slice_pair by done.
    all: rsimpl; rewrite Hids; rsimpl.
    all: rewrite Hmetas; simpl; rewrite Hmeta, Hh.
    all: split; [done|].
    all: rewrite (similar_hit_id _ _ _ _ _ Hh); apply list_elem_of_here. }
  apply elem_of_cons in Hin as [->|Hin].
  - destruct (Hcase id1 eq_refl) as (hits & ? & ?).
    { unfold index_of. simpl. by rewrite decide_True. }
    exists id1, hits. split_and!; [apply list_elem_of_here|done..].
  - apply list_elem_of_singleton in Hin as ->.
    destruct (Hcase id2 eq_refl) as (hits & ? & ?).
    { unfold index_of. simpl. rewrite decide_False by done.
      by rewrite decide_True. }
    exists id2, hits. split_and!; [|done..].
    apply list_elem_of_further, list_elem_of_here.
Qed.

(** What the slice by position does give: when [argsort] sorts and the
    queried row is strictly closer to itself than to every other row, it
    ranks first, and its identifier is not among the results. *)
Lemma search_by_id_excludes_self E w vs ids movie_id idx v top_k hits w' :
  vectors w = Some vs → movie_ids w = Some ids → NoDup ids →
  index_of movie_id ids = Some idx → vs !! idx = Some v →
  (∀ l, argsort E l ≡ₚ seq 0 (length l)) →
  (∀ l i j a b sa sb,
     (i < j)%nat → argsort E l !! i = Some a → argsort E l !! j = Some b →
     l !! a = Some sa → l !! b = Some sb → score_leb E sa sb = true) →
  (∀ j u, j ≠ idx → vs !! j = Some u →
          score_leb E (cosine E v v) (cosine E v u) = false) →
  search_by_id E movie_id top_k w = (Ok hits, w') →
  movie_id ∉ h_id <$> hits.
Proof.
  intros Hv Hids Hnd Hidx Hrow Hperm Hsorted Hmax.
  unfold search_by_id. run. rewrite Hv. simpl. rewrite Hids, Hidx. simpl.
  rewrite Hv. simpl. rewrite Hrow. simpl.
  set (sim := cosine E v <$> vs). set (L := argsort E sim).
  intros Hrun. injection Hrun as Hrun _.
  assert (L ≡ₚ seq 0 (length vs)) as HL.
  { unfold L. rewrite Hperm. unfold sim. by rewrite length_fmap. }
  assert (NoDup L) as HndL by (rewrite HL; apply NoDup_seq).
  assert (last L = Some idx) as Hlast.
  { assert (idx ∈ L) as Hin.
    { rewrite HL. apply elem_of_seq. apply lookup_lt_Some in Hrow. lia. }
    apply list_elem_of_lookup in Hin as [p Hp].
    rewrite last_lookup.
    destruct (decide (p = pred (length L))) as [->|Hpn]; [done|].
    assert (p < pred (length L))%nat as Hlt.
    { apply lookup_lt_Some in Hp. lia. }
    destruct (lookup_lt_is_Some_2 L (pred (length L))) as [b Hb]; [lia|].
    assert (b ≠ idx) as Hbne.
    { intros ->. apply Hpn. by eapply NoDup_lookup. }
    assert (b ∈ seq 0 (length vs)) as Hbin.
    { rewrite <- HL. apply list_elem_of_lookup. eauto. }
    apply elem_of_seq in Hbin as [_ Hbin].
    destruct (lookup_lt_is_Some_2 vs b) as [u Hu]; [lia|].
    assert (score_leb E (cosine E v v) (cosine E v u) = true) as Htrue.
    { apply (Hsorted sim p (pred (length L)) idx b); try done.
      - unfold sim. by rewrite list_lookup_fmap, Hrow.
      - unfold sim. by rewrite list_lookup_fmap, Hu. }
    rewrite (Hmax b u Hbne Hu) in Htrue. done. }
  apply last_Some in Hlast as [L0 HL0].
  rewrite HL0, reverse_snoc in Hrun.
  apply similar_loop_ids in Hrun.
  intros Hin. apply list_elem_of_fmap in Hin as (h & Hh & Hin).
  apply list_elem_of_lookup in Hin as [k Hk].
  destruct (Forall2_lookup_r _ _ _ _ _ Hrun Hk) as (i & Hi & Hid).
  assert (i ∈ L0) as HiL0.
  { apply elem_of_reverse. eapply slice_from_1.
    apply list_elem_of_lookup. eauto. }
  assert (i ≠ idx) as Hne.
  { intros ->. rewrite HL0 in HndL. apply NoDup_app in HndL as (_ & Hdis & _).
    apply (Hdis idx HiL0). apply list_elem_of_here. }
  apply Hne. rewrite Hids in Hid. simpl in Hid.
  destruct (ids !! i) as [x|] eqn:Hx; [|done].
  injection Hid as Hxh.
  unfold index_of in Hidx.
  destruct (list_find _ ids) as [[idx' y]|] eqn:Hfind; [|done].
  injection Hidx as ->.
  apply list_find_Some in Hfind as (Hy & Hyid & _).
  eapply NoDup_lookup; [exact Hnd|exact Hx|]. congruence.
Qed.

(** ** Further properties of the build and of the queries *)

(** *** The cache file and the memory *)

Lemma rebuild_saved E w r w' :
  rebuild E w = (r, w') →
  cache w' = cache w ∨
  (r = Ok () ∧ last (log w') = Some Built ∧ cache w' = saved w') ∨
  (∃ e, r = Raise e ∧ open_wb E = Ok () ∧ pickle_dump E = Raise e ∧
        cache w' = Unreadable).
Proof.
  unfold rebuild, _load_model, _save_to_cache, saved.
  intros H. exec.
  all: simpl; auto.
  all: repeat match goal with u : () |- _ => destruct u end.
  all: first [ by right; left; split_and!; try done; rewrite last_snoc
             | by right; right; eexists; split_and! ].
Qed.

Lemma rebuild_built_saved E w w' evs :
  rebuild E w = (Ok (), w') → log w' = log w ++ evs → Built ∈ evs →
  cache w' = saved w'.
Proof.
  unfold rebuild, _load_model, _save_to_cache, saved.
  intros H Hlog Hin. exec.
  all: log_events Hlog.
  all: try (repeat (apply elem_of_cons in Hin as [?|Hin]; [done|]);
            by apply elem_of_nil in Hin).
  all: done.
Qed.

Lemma build_index_saved E force w w' evs :
  build_index E force w = (Ok (), w') → log w' = log w ++ evs → Built ∈ evs →
  cache w' = saved w'.
Proof.
  unfold build_index. intros H Hlog Hin. run.
  destruct (negb force && not_none (vectors w)).
  { simplify_eq. log_events Hlog. by apply elem_of_nil in Hin. }
  destruct (negb force && exists_ (cache w)).
  - destruct (try_cache E w) as [r w1] eqn:Hc.
    destruct (try_cache_log _ _ _ _ Hc) as (b & ev & -> & Hl1 & Hev & _).
    destruct b.
    + simplify_eq. rewrite Hl1 in Hlog. log_events Hlog.
      apply list_elem_of_singleton in Hin. congruence.
    + destruct (rebuild_log _ _ _ _ H) as [evs1 Hl2].
      rewrite Hl2, Hl1 in Hlog. log_events Hlog.
      apply elem_of_cons in Hin as [?|Hin]; [congruence|].
      by eapply rebuild_built_saved.
  - by eapply rebuild_built_saved.
Qed.

(** X1. What [_save_to_cache] writes, [_load_from_cache] reads back: when
    [open] and [pickle.dump] succeed, a load in any process that finds that
    file succeeds and assigns the matrix, the identifier list and the
    metadata that were in memory at the save.  A save whose [open] raises
    changes neither the file nor the state.  A save whose [pickle.dump]
    raises after the file was opened for writing raises that exception and
    leaves a file that no load can unpickle; the attributes in memory are
    not touched. *)
Theorem cache_round_trip E w :
  (open_wb E = Ok () → pickle_dump E = Ok () →
   ∃ w1, _save_to_cache E w = (Ok (), w1) ∧ generation w1 = generation w ∧
         ∀ w0, cache w0 = cache w1 →
           ∃ w2, _load_from_cache w0 = (Ok (), w2) ∧
                 generation w2 = generation w ∧ cache w2 = cache w0) ∧
  (∀ e, open_wb E = Raise e → _save_to_cache E w = (Raise e, w)) ∧
  (∀ e, open_wb E = Ok () → pickle_dump E = Raise e →
     ∃ w1, _save_to_cache E w = (Raise e, w1) ∧
           generation w1 = generation w ∧ cache w1 = Unreadable ∧
           ∀ w0, cache w0 = cache w1 →
             _load_from_cache w0 = (Raise UnpicklingError, w0)).
Proof.
  unfold _save_to_cache, _load_from_cache. split_and!.
  - intros Hopen Hdump. run. rewrite Hopen. simpl. rewrite Hdump. simpl.
    eexists. split_and!; [done..|].
    intros w0 Hc. simpl in Hc. run. rewrite Hc. simpl. eauto.
  - intros e Hopen. run. by rewrite Hopen.
  - intros e Hopen Hdump. run. rewrite Hopen. simpl. rewrite Hdump. simpl.
    eexists. split_and!; [done..|].
    intros w0 Hc. simpl in Hc. run. by rewrite Hc.
Qed.

(** X2. [build_index] touches the cache file in one place only, the save
    after the encoding.  After any call one of three holds.  The file is the
    file of before.  Or the call returned normally, its last log entry is
    the completion message and the file holds exactly the three attributes
    now in memory.  Or the file had been opened for writing and
    [pickle.dump] raised: the call raises that exception and the file of
    before is gone, what is left cannot be unpickled. *)
Theorem cache_written_by_completed_build E force w r w' :
  build_index E force w = (r, w') →
  cache w' = cache w ∨
  (r = Ok () ∧ last (log w') = Some Built ∧ cache w' = saved w') ∨
  (∃ e, r = Raise e ∧ open_wb E = Ok () ∧ pickle_dump E = Raise e ∧
        cache w' = Unreadable).
Proof.
  unfold build_index. run.
  destruct (negb force && not_none (vectors w)).
  { intros ?. simplify_eq. by left. }
  destruct (negb force && exists_ (cache w)).
  - destruct (try_cache E w) as [r1 w1] eqn:Hc.
    destruct (try_cache_never_raises _ _ _ _ Hc) as (b & -> & _ & Hc1).
    destruct b.
    + intros ?. simplify_eq. by left.
    + intros H. rewrite <- Hc1. by eapply rebuild_saved.
  - by apply rebuild_saved.
Qed.

(** *** Comprehensions that select everything, nothing, or raise *)

Lemma res_filterM_all {A} (p : A → res bool) l :
  Forall (λ x, p x = Ok true) l → res_filterM p l = Ok l.
Proof.
  induction 1 as [|x l Hx _ IH]; [done|]. simpl. by rewrite Hx, IH.
Qed.

Lemma res_filterM_raise {A} (p : A → res bool) l x e0 :
  x ∈ l → p x = Raise e0 →
  ∃ e y, res_filterM p l = Raise e ∧ y ∈ l ∧ p y = Raise e.
Proof.
  induction l as [|y l IH]; intros Hin Hx.
  { by apply elem_of_nil in Hin. }
  simpl. destruct (p y) as [b|e] eqn:Hy; rsimpl.
  - apply elem_of_cons in Hin as [->|Hin]; [congruence|].
    destruct (IH Hin Hx) as (e & z & -> & Hz & Hpz). rsimpl.
    exists e, z. split_and!; [done| |done]. by apply list_elem_of_further.
  - exists e, y. split_and!; [done| |done]. apply list_elem_of_here.
Qed.

Lemma res_mapM_total {A B} (f : A → res B) l :
  Forall (λ x, ∃ y, f x = Ok y) l → ∃ l', res_mapM f l = Ok l'.
Proof.
  induction 1 as [|x l [y Hx] _ [l' IH]]; [by exists []|].
  simpl. rewrite Hx, IH. rsimpl. eauto.
Qed.

Lemma res_mapM_raise {A B} (f : A → res B) l x e0 :
  x ∈ l → f x = Raise e0 → (∀ y e, f y = Raise e → e = e0) →
  res_mapM f l = Raise e0.
Proof.
  intros Hin Hx Hall. induction l as [|y l IH].
  { by apply elem_of_nil in Hin. }
  simpl. destruct (f y) as [b|e] eqn:Hy; rsimpl.
  - apply elem_of_cons in Hin as [->|Hin]; [congruence|].
    by rewrite (IH Hin).
  - by rewrite (Hall _ _ Hy).
Qed.

Lemma filter_all {A} (P : A → Prop) `{∀ x, Decision (P x)} l :
  Forall P l → filter P l = l.
Proof.
  induction 1 as [|x l Hx _ IH]; [done|].
  by rewrite filter_cons_True, IH.
Qed.

(** *** Rows of the table that a build cannot digest *)

Lemma indexable_raises m e :
  indexable m = Raise e →
  (e = IndexError ∧ (length m ≤ 6)%nat) ∨
  (e = AttributeError ∧ ∃ z, z ≠ 0 ∧ m !! 6%nat = Some (PInt z)).
Proof.
  unfold indexable, item.
  destruct (m !! 6%nat) as [[|z|d]|] eqn:Hm; simpl; try done.
  - destruct (Z.eqb_spec z 0); simpl; [done|].
    intros ?. simplify_eq. right. eauto.
  - destruct d; simpl; done.
  - intros ?. simplify_eq. left. split; [done|].
    apply lookup_ge_None in Hm. lia.
Qed.

Lemma indexable_short m : (length m ≤ 6)%nat → indexable m = Raise IndexError.
Proof.
  intros Hlen. unfold indexable, item.
  by rewrite (proj2 (lookup_ge_None m 6)) by lia.
Qed.

Lemma indexable_number m z :
  z ≠ 0 → m !! 6%nat = Some (PInt z) → indexable m = Raise AttributeError.
Proof.
  intros Hz Hm. unfold indexable, item. rewrite Hm. simpl.
  by destruct (Z.eqb_spec z 0).
Qed.

Lemma indexable_columns m : indexable m = Ok true → (7 ≤ length m)%nat.
Proof.
  unfold indexable, item.
  destruct (m !! 6%nat) eqn:Hm; [|done].
  intros _. apply lookup_lt_Some in Hm. lia.
Qed.

Lemma sentence_total m : (7 ≤ length m)%nat → ∃ s, sentence m = Ok s.
Proof.
  intros Hlen. unfold sentence, item.
  destruct (lookup_lt_is_Some_2 m 3) as [t ->]; [lia|].
  destruct (lookup_lt_is_Some_2 m 6) as [d ->]; [lia|].
  rsimpl. eauto.
Qed.

Lemma meta_entry_raises m e : meta_entry m = Raise e → e = IndexError.
Proof.
  unfold meta_entry, item. intros H.
  destruct (m !! 0%nat); [|rsimpl; congruence].
  destruct (m !! 3%nat); [|rsimpl; congruence].
  destruct (m !! 4%nat); [|rsimpl; congruence].
  destruct (m !! 2%nat); [|rsimpl; congruence].
  destruct (m !! 6%nat); [|rsimpl; congruence].
  destruct (m !! 1%nat); [|rsimpl; congruence].
  destruct (m !! 7%nat); [|rsimpl; congruence].
  destruct (m !! 8%nat); [|rsimpl; congruence].
  destruct (m !! 9%nat); [|rsimpl; congruence].
  destruct (m !! 10%nat); [|rsimpl; congruence].
  destruct (m !! 11%nat); rsimpl; congruence.
Qed.

Lemma meta_entry_narrow m : (length m < 12)%nat → meta_entry m = Raise IndexError.
Proof.
  intros Hlen. destruct (meta_entry m) as [[k md]|e] eqn:Hm.
  - exfalso. revert Hm. unfold meta_entry, item.
    rewrite (proj2 (lookup_ge_None m 11)) by lia.
    destruct (m !! 0%nat); [|done]. destruct (m !! 3%nat); [|done].
    destruct (m !! 4%nat); [|done]. destruct (m !! 2%nat); [|done].
    destruct (m !! 6%nat); [|done]. destruct (m !! 1%nat); [|done].
    destruct (m !! 7%nat); [|done]. destruct (m !! 8%nat); [|done].
    destruct (m !! 9%nat); [|done]. by destruct (m !! 10%nat).
  - by rewrite (meta_entry_raises _ _ Hm).
Qed.

(** X6. A row the comprehension at line 73 cannot test aborts the whole
    build: a row with fewer than seven columns raises [IndexError], a
    non-zero number in the description column raises [AttributeError] (it
    has no [strip]).  The row is not skipped.  The exception leaves
    [build_index] before anything is assigned, so generation and cache file
    stay as they were. *)
Theorem malformed_row_aborts_build E force w movies m :
  force = true ∨ (vectors w = None ∧ cache w = NoFile) →
  encoder_available E w → get_all_movies E = Ok movies →
  m ∈ movies →
  (length m ≤ 6)%nat ∨ (∃ z, z ≠ 0 ∧ m !! 6%nat = Some (PInt z)) →
  ∃ e w', build_index E force w = (Raise e, w') ∧
          (e = IndexError ∨ e = AttributeError) ∧
          generation w' = generation w ∧ cache w' = cache w.
Proof.
  intros Hpath Hav Hget Hin Hbad.
  assert (∃ e0, indexable m = Raise e0) as [e0 Hm].
  { destruct Hbad as [?|(z & ? & ?)];
      eauto using indexable_short, indexable_number. }
  destruct (res_filterM_raise _ _ _ _ Hin Hm) as (e & y & Hf & _ & Hy).
  rewrite (build_index_rebuild _ _ _ Hpath).
  destruct (load_model_available _ _ Hav) as (w1 & Hl & Hg & Hc & _).
  unfold rebuild. run. rewrite Hl, Hget. simpl. rewrite Hf. simpl.
  exists e. eexists. split_and!; [done| |done|done].
  destruct (indexable_raises _ _ Hy) as [[-> _]|[-> _]]; auto.
Qed.

(** X7. The sentence template guards columns 7 to 11 with
    [len(m) > i], the metadata comprehension does not.  For an indexable row
    with fewer than twelve columns the sentence is rendered, but the build
    raises [IndexError] at lines 111 to 124, after [self.movie_ids] has been
    replaced and before metadata, matrix and cache file are touched. *)
Theorem narrow_row_fails_after_ids E force w movies valid m :
  force = true ∨ (vectors w = None ∧ cache w = NoFile) →
  encoder_available E w → get_all_movies E = Ok movies →
  res_filterM indexable movies = Ok valid →
  m ∈ valid → (length m < 12)%nat →
  (∃ s, sentence m = Ok s) ∧
  ∃ w', build_index E force w = (Raise IndexError, w') ∧
        movie_ids w' = Some (omap (λ m, m !! 0%nat) valid) ∧
        vectors w' = vectors w ∧ id_to_meta w' = id_to_meta w ∧
        cache w' = cache w.
Proof.
  intros Hpath Hav Hget Hvalid Hin Hlen.
  assert (Forall (λ m, (7 ≤ length m)%nat) valid) as Hcols.
  { apply Forall_forall. intros x Hx. apply indexable_columns.
    rewrite (res_filterM_filter _ _ _ Hvalid) in Hx.
    by apply list_elem_of_filter in Hx as [? _]. }
  split.
  { apply sentence_total. exact (proj1 (Forall_forall _ _) Hcols m Hin). }
  destruct (res_mapM_total sentence valid) as [sentences Hs].
  { eapply Forall_impl; [exact Hcols|]. apply sentence_total. }
  destruct (res_mapM_total (λ m, item m 0) valid) as [ids Hids].
  { eapply Forall_impl; [exact Hcols|]. intros x Hx. simpl in Hx. unfold item.
    destruct (lookup_lt_is_Some_2 x 0) as [k ->]; [lia|]. eauto. }
  assert (res_mapM meta_entry valid = Raise IndexError) as He.
  { eapply res_mapM_raise; [exact Hin|by apply meta_entry_narrow|].
    apply meta_entry_raises. }
  rewrite <- (ids_omap _ _ Hids).
  rewrite (build_index_rebuild _ _ _ Hpath).
  destruct (load_model_available _ _ Hav) as (w1 & Hl & Hg & Hc & _).
  unfold rebuild. run. rewrite Hl, Hget. simpl. rewrite Hvalid. simpl.
  destruct valid as [|m0 valid]; [by apply elem_of_nil in Hin|]. run.
  rewrite Hs. simpl. rewrite Hids. simpl. rewrite He. simpl.
  eexists. split; [reflexivity|]. simpl.
  unfold generation in Hg. injection Hg as Hg1 Hg2 Hg3.
  by split_and!.
Qed.

Lemma build_index_stale E w v ids metas movies :
  vectors w = None →
  cache w = Pickled (Bundle (Some v) (Some (Some ids)) (Some metas)) →
  get_all_movies E = Ok movies → length ids ≠ length movies →
  build_index E false w
  = rebuild E (add_log (CacheStale (length movies) (length ids))
                       (loaded v (Some ids) metas w)).
Proof.
  intros Hv Hfile Hget Hlen.
  rewrite build_index_cached; [|done|by rewrite Hfile].
  unfold try_cache, _load_from_cache. run. rewrite Hfile. simpl.
  rewrite Hget. simpl. by rewrite bool_decide_false.
Qed.

(** X5. A rebuild over a table without an indexable row (an empty table
    included) returns normally after logging the warning, and leaves the
    generation in memory and the cache file untouched: a forced rebuild
    then keeps serving the old index. *)
Theorem build_without_indexable_rows E force w movies :
  force = true ∨ (vectors w = None ∧ cache w = NoFile) →
  encoder_available E w → get_all_movies E = Ok movies →
  Forall (λ m, indexable m = Ok false) movies →
  ∃ w', build_index E force w = (Ok (), w') ∧
        generation w' = generation w ∧ cache w' = cache w ∧
        last (log w') = Some NoValidMovies.
Proof.
  intros Hpath Hav Hget Hnone.
  rewrite (build_index_rebuild _ _ _ Hpath). by eapply rebuild_none.
Qed.

(** X4. A non-forced build that finds the cache file stale and then finds
    no indexable row in the table returns normally with the generation of
    the stale file in memory: [_load_from_cache] assigned it before the
    count was compared and the early return at line 77 does not take it
    back.  From then on non-forced builds return at once. *)
Theorem stale_cache_stays_without_indexable_rows E w v ids metas movies :
  vectors w = None →
  cache w = Pickled (Bundle (Some v) (Some (Some ids)) (Some metas)) →
  encoder_available E w → get_all_movies E = Ok movies →
  length ids ≠ length movies →
  Forall (λ m, indexable m = Ok false) movies →
  ∃ w', build_index E false w = (Ok (), w') ∧
        generation w' = (v, Some ids, metas) ∧ cache w' = cache w ∧
        (v ≠ None → build_index E false w' = (Ok (), w')).
Proof.
  intros Hv Hfile Hav Hget Hlen Hnone.
  rewrite (build_index_stale _ _ _ _ _ _ Hv Hfile Hget Hlen).
  edestruct (rebuild_none E) as (w' & Hrun & Hg & Hc & _); [|done|done|].
  2: { exists w'. split; [exact Hrun|]. split_and!; [done|done|].
       intros Hne. unfold build_index. run.
       unfold generation in Hg. injection Hg as Hg1 _ _. rewrite Hg1. simpl.
       by destruct v. }
  done.
Qed.

(** X3. The staleness check compares the number of cached identifiers,
    which counts indexable rows only, with the number of all rows of the
    table.  After a completed build over a table, a new process over the
    same table adopts the file, without loading the encoder, when every row
    is indexable; as soon as one row is not indexable the file is judged
    stale although nothing changed, and the process goes on to the rebuild
    with the cached generation already assigned. *)
Theorem restart_adopts_iff_all_indexable E force w w' evs movies w0 :
  build_index E force w = (Ok (), w') → log w' = log w ++ evs → Built ∈ evs →
  get_all_movies E = Ok movies →
  vectors w0 = None → cache w0 = cache w' →
  (Forall (λ m, indexable m = Ok true) movies →
     ∃ w2, build_index E false w0 = (Ok (), w2) ∧
           generation w2 = generation w' ∧ model w2 = model w0 ∧
           cache w2 = cache w0 ∧ log w2 = log w0 ++ [CacheAdopted]) ∧
  (∀ m, m ∈ movies → indexable m = Ok false →
     ∃ w1 n, build_index E false w0 = rebuild E w1 ∧
             generation w1 = generation w' ∧ model w1 = model w0 ∧
             (n < length movies)%nat ∧
             log w1 = log w0 ++ [CacheStale (length movies) n]).
Proof.
  intros Hrun Hlog Hin Hget Hv0 Hc0.
  pose proof (build_index_saved _ _ _ _ _ Hrun Hlog Hin) as Hsaved.
  destruct (build_index_built _ _ _ _ _ Hrun Hlog Hin)
    as (movies' & valid & sentences & ids & entries & vs
        & Hget' & Hvalid & _ & _ & Hids & _ & _ & Hgen).
  assert (movies' = movies) as -> by congruence.
  unfold generation in Hgen. injection Hgen as Hg1 Hg2 Hg3.
  unfold saved in Hsaved. rewrite Hg1, Hg2, Hg3, <- Hc0 in Hsaved.
  pose proof (res_mapM_length _ _ _ Hids) as Hlen.
  pose proof (res_filterM_filter _ _ _ Hvalid) as Hfilter.
  rewrite build_index_cached; [|done|by rewrite Hsaved].
  unfold try_cache, _load_from_cache. run. rewrite Hsaved. simpl.
  rewrite Hget. simpl. unfold generation. rewrite Hg1, Hg2, Hg3. split.
  - intros Hall. rewrite bool_decide_true.
    2: { rewrite Hlen, Hfilter. by rewrite filter_all. }
    simpl. eexists. split_and!; done.
  - intros m Hm Hno.
    assert (length ids < length movies)%nat as Hlt.
    { rewrite Hlen, Hfilter. eapply length_filter_lt; [exact Hm|]. congruence. }
    rewrite bool_decide_false by lia. simpl.
    eexists _, (length ids). split_and!; done.
Qed.

(** *** Duplicate identifiers *)

Lemma dict_of_lookup_last (entries : list (pyval * metadata)) k :
  dict_of entries !! k = snd <$> last (filter (λ kv, kv.1 = k) entries).
Proof.
  induction entries as [|[k' v'] entries IH] using rev_ind; [done|].
  rewrite dict_of_snoc, filter_app, filter_cons, filter_nil. simpl.
  destruct (decide (k' = k)) as [->|Hne].
  - by rewrite lookup_insert_eq, last_snoc.
  - rewrite lookup_insert_ne by done. by rewrite app_nil_r.
Qed.

Lemma entries_filter (valid : list (list pyval)) entries (id : pyval) :
  Forall2 (λ m kv, meta_entry m = Ok kv) valid entries →
  Forall2 (λ m kv, meta_entry m = Ok kv)
    (filter (λ m, m !! 0%nat = Some id) valid)
    (filter (λ kv, kv.1 = id) entries).
Proof.
  induction 1 as [|m [k md] valid entries Hm _ IH]; [constructor|].
  rewrite !filter_cons. pose proof (meta_entry_key _ _ _ Hm) as Hk. simpl.
  destruct (decide (k = id)) as [->|Hne].
  - rewrite decide_True by done. by constructor.
  - rewrite decide_False by congruence. done.
Qed.

(** X9. The metadata dictionary is keyed by identifier, so of several
    indexable rows with one identifier the last one wins: after a completed
    build the metadata under an identifier is that of the last indexable row
    of the table carrying it, and an identifier has an entry exactly when
    such a row exists. *)
Theorem duplicate_identifier_last_wins E force w w' evs movies :
  get_all_movies E = Ok movies →
  build_index E force w = (Ok (), w') → log w' = log w ++ evs → Built ∈ evs →
  ∃ valid metas,
    res_filterM indexable movies = Ok valid ∧ id_to_meta w' = Some metas ∧
    ∀ id md,
      metas !! id = Some md ↔
      ∃ m, last (filter (λ m, m !! 0%nat = Some id) valid) = Some m ∧
           meta_entry m = Ok (id, md).
Proof.
  intros Hget Hrun Hlog Hin.
  destruct (build_index_built _ _ _ _ _ Hrun Hlog Hin)
    as (movies' & valid & sentences & ids & entries & vs
        & Hget' & Hvalid & _ & _ & _ & Hentries & _ & Hgen).
  assert (movies' = movies) as -> by congruence.
  unfold generation in Hgen. injection Hgen as _ _ Hmetas.
  exists valid, (dict_of entries). split_and!; [done..|].
  intros id md. rewrite dict_of_lookup_last.
  pose proof (Forall2_last _ _ _
    (entries_filter _ _ id (res_mapM_Forall2 _ _ _ Hentries))) as Hlast.
  split.
  - intros Hmd.
    destruct (last (filter (λ kv, kv.1 = id) entries)) as [[k md']|] eqn:Hl;
      [|done].
    simpl in Hmd. simplify_eq. inversion Hlast as [m ? Hm Hl1 Hl2|]. simplify_eq.
    exists m. split; [done|].
    assert ((k, md) ∈ filter (λ kv, kv.1 = id) entries) as Hk.
    { apply last_Some in Hl as [l' ->]. rewrite elem_of_app, list_elem_of_singleton. auto. }
    apply list_elem_of_filter in Hk as [Hk _]. simpl in Hk. by subst.
  - intros (m & Hm & Hme). rewrite Hm in Hlast.
    inversion Hlast as [? kv Hkv Hl1 Hl2|]. subst. simpl in Hkv.
    rewrite Hme in Hkv. by injection Hkv as <-.
Qed.

(** X8. When the batch [encode] raises in a rebuild, the identifier list
    and the metadata are those of the current table and the matrix is the
    one of before; the cache file is untouched.  If there was a matrix, the
    next non-forced build returns at once, so the mixed generation stays
    until a forced rebuild. *)
Theorem encode_failure_is_not_repaired E force w e movies valid sentences ids entries :
  force = true ∨ (vectors w = None ∧ cache w = NoFile) →
  encoder_available E w →
  get_all_movies E = Ok movies →
  res_filterM indexable movies = Ok valid → valid ≠ [] →
  res_mapM sentence valid = Ok sentences →
  res_mapM (λ m, item m 0) valid = Ok ids →
  res_mapM meta_entry valid = Ok entries →
  encode E sentences = Raise e →
  ∃ w', build_index E force w = (Raise e, w') ∧
        generation w' = (vectors w, Some ids, Some (dict_of entries)) ∧
        cache w' = cache w ∧
        (vectors w ≠ None → build_index E false w' = (Ok (), w')).
Proof.
  intros Hpath Hav Hget Hvalid Hne Hs Hids He Henc.
  rewrite (build_index_rebuild _ _ _ Hpath).
  destruct (load_model_available _ _ Hav) as (w1 & Hl & Hg & Hc & _).
  unfold rebuild. run. rewrite Hl, Hget. simpl. rewrite Hvalid. simpl.
  destruct valid as [|m valid]; [done|]. run.
  rewrite Hs. simpl. rewrite Hids. simpl. rewrite He. simpl.
  rewrite Henc. simpl. eexists. split; [reflexivity|].
  unfold generation in *. injection Hg as Hg1 _ _. simpl.
  split_and!; [congruence|done|].
  intros Hv. unfold build_index. run. rewrite Hg1.
  by destruct (vectors w).
Qed.

(** *** The filters *)

Lemma year_filter_spec filters meta :
  int_or_absent (filters !! "year_min") = true →
  int_or_absent (filters !! "year_max") = true →
  ∃ b, year_filter filters meta = Ok b ∧ (b = true ↔ in_year_range filters meta).
Proof.
  unfold year_filter, in_year_range. fold (year_of meta).
  destruct (filters !! "year_min") as [[|zlo|?]|] eqn:Elo; simpl; try done;
    (destruct (filters !! "year_max") as [[|zhi|?]|] eqn:Ehi; simpl; try done);
    intros _ _; rsimpl.
  - destruct (Z.ltb_spec (year_of meta) zlo); rsimpl.
    + eexists. split; [done|]. split; [done|]. intros [H1 _].
      specialize (H1 _ eq_refl). lia.
    + destruct (Z.ltb_spec zhi (year_of meta)); simpl.
      * eexists. split; [done|]. split; [done|]. intros [_ H2].
        specialize (H2 _ eq_refl). lia.
      * eexists. split; [done|]. split; [|done]. intros _.
        split; intros ? [= <-]; lia.
  - destruct (Z.ltb_spec (year_of meta) zlo); rsimpl.
    + eexists. split; [done|]. split; [done|]. intros [H1 _].
      specialize (H1 _ eq_refl). lia.
    + eexists. split; [done|]. split; [|done]. intros _.
      split; [intros ? [= <-]; lia|done].
  - destruct (Z.ltb_spec zhi (year_of meta)); simpl.
    + eexists. split; [done|]. split; [done|]. intros [_ H2].
      specialize (H2 _ eq_refl). lia.
    + eexists. split; [done|]. split; [|done]. intros _.
      split; [done|intros ? [= <-]; lia].
  - eexists. split; [done|]. split; [|done]. intros _. split; done.
Qed.

Lemma substring_filter_spec key filters meta :
  text_or_falsy (filters !! key) = true →
  ∃ b, substring_filter key filters meta = Ok b ∧
       (b = true ↔ mentions key filters meta).
Proof.
  unfold substring_filter, mentions.
  destruct (filters !! key) as [[|z|s]|] eqn:Hv; simpl.
  - intros _. exists true. split; [done|]. split; [done|]. done.
  - intros Hz. apply negb_true_iff in Hz. rewrite Hz.
    exists true. split; [done|]. split; [done|]. done.
  - intros _. destruct s as [|c s].
    + exists true. split; [done|]. split; [|done]. by intros _ s [= <-].
    + eexists. split; [done|]. split.
      * by intros Hc s' [= <-] _.
      * intros Hm. by apply (Hm _ eq_refl).
  - intros _. exists true. split; [done|]. split; [done|]. done.
Qed.

(** X10. On filters of the documented types (integer year bounds; text,
    or a value that counts as false, under the four substring keys) the
    evaluation of the filters never raises, and a candidate passes exactly
    when its year (the first four digits of the year field, 0 without any)
    lies within the bounds given and every non-empty text filter occurs in
    the field of its name.  Empty texts, [None] and 0 filter nothing. *)
Theorem passes_well_typed filters meta :
  well_typed filters = true →
  (∃ b, eval_filters filters meta = Ok b) ∧
  (passes filters meta = true ↔
     in_year_range filters meta ∧
     mentions "country" filters meta ∧ mentions "category" filters meta ∧
     mentions "director" filters meta ∧ mentions "actor" filters meta).
Proof.
  unfold well_typed. simpl. rewrite !andb_true_iff.
  intros [[Hlo Hhi] (Hc1 & Hc2 & Hc3 & Hc4 & _)].
  destruct (year_filter_spec filters meta Hlo Hhi) as (by_ & Hy & Hyi).
  destruct (substring_filter_spec "country" filters meta Hc1) as (b1 & H1 & Hi1).
  destruct (substring_filter_spec "category" filters meta Hc2) as (b2 & H2 & Hi2).
  destruct (substring_filter_spec "director" filters meta Hc3) as (b3 & H3 & Hi3).
  destruct (substring_filter_spec "actor" filters meta Hc4) as (b4 & H4 & Hi4).
  unfold passes, eval_filters. rewrite Hy, H1, H2, H3, H4. rsimpl.
  rewrite <- Hyi, <- Hi1, <- Hi2, <- Hi3, <- Hi4.
  split; [by destruct by_, b1, b2, b3, b4; simpl; eauto|].
  destruct by_, b1, b2, b3, b4; simpl.
  all: split; [try done; by intros _; split_and!|].
  all: intros (?&?&?&?&?); congruence.
Qed.

Lemma year_min_raises filters bound meta :
  filters !! "year_min" = Some bound → (∀ z, bound ≠ PInt z) →
  eval_filters filters meta = Raise TypeError.
Proof.
  intros Hb Hne. unfold eval_filters, year_filter. rewrite Hb.
  destruct bound as [|z|s]; [|by destruct (Hne z)|];
    by destruct (filters !! "year_max").
Qed.

Lemma year_max_raises filters bound meta :
  filters !! "year_min" = None →
  filters !! "year_max" = Some bound → (∀ z, bound ≠ PInt z) →
  eval_filters filters meta = Raise TypeError.
Proof.
  intros Hlo Hb Hne. unfold eval_filters, year_filter. rewrite Hlo, Hb.
  by destruct bound as [|z|s]; [|by destruct (Hne z)|].
Qed.

Lemma search_loop_ext w top_k f1 f2 (sim : list score) l acc :
  (∀ meta, passes f1 meta = passes f2 meta) →
  search_loop w top_k f1 sim l acc = search_loop w top_k f2 sim l acc.
Proof.
  intros Hext. revert acc. induction l as [|idx l IH]; intros acc; [done|].
  simpl. destruct (_ >=? _); [done|].
  destruct (sim !! idx) as [s|]; rsimpl; [|done].
  destruct (index (movie_ids w) idx) as [movie_id|]; rsimpl; [|done].
  destruct (lookup_meta (id_to_meta w) movie_id) as [meta|]; rsimpl; [|done].
  rewrite Hext. destruct (passes f2 meta); [|apply IH].
  destruct (search_hit movie_id meta s); rsimpl; [apply IH|done].
Qed.

(** X11. A year bound that is not an integer (the year as text, [None])
    switches every filter off: the comparison raises on every candidate
    before the substring filters are looked at, the exception is swallowed,
    and the scan returns what it returns without any filter.  This holds for
    ["year_min"], and for ["year_max"] when ["year_min"] is absent. *)
Theorem malformed_year_bound_disables_filters filters bound :
  (filters !! "year_min" = Some bound ∨
   filters !! "year_min" = None ∧ filters !! "year_max" = Some bound) →
  (∀ z, bound ≠ PInt z) →
  (∀ meta, passes filters meta = true) ∧
  (∀ w top_k (sim : list score) l acc,
     search_loop w top_k filters sim l acc = search_loop w top_k ∅ sim l acc).
Proof.
  intros Hb Hne.
  assert (∀ meta, passes filters meta = true) as Hall.
  { intros meta. unfold passes.
    destruct Hb as [Hb|[Hlo Hb]].
    - by rewrite (year_min_raises _ _ _ Hb Hne).
    - by rewrite (year_max_raises _ _ _ Hlo Hb Hne). }
  split; [done|]. intros. apply search_loop_ext. intros meta.
  by rewrite Hall.
Qed.

(** *** The results of [search], row by row *)

Lemma search_hit_fields movie_id meta (s : score) h :
  search_hit movie_id meta s = Ok h → h_id h = movie_id ∧ h_similarity h = s.
Proof.
  unfold search_hit.
  destruct (getitem meta "title"); [|done].
  destruct (getitem meta "score"); [|done].
  destruct (getitem meta "pic"); [|done].
  destruct (getitem meta "intro") as [intro|]; [|done]. rsimpl.
  destruct (prefix_of intro 100); [|done].
  intros H. by simplify_eq.
Qed.

Lemma search_loop_first w top_k filters (sim : list score) l acc hits :
  search_loop w top_k filters sim l acc = Ok hits →
  ∃ new, hits = acc ++ new ∧
         Forall2 (hit_of_row w sim)
           (take (Z.to_nat top_k - length acc)
                 (filter (λ i, row_passes w filters i = true) l)) new.
Proof.
  revert acc. induction l as [|idx l IH]; intros acc; simpl.
  { intros ?. simplify_eq. exists []. rewrite app_nil_r.
    split; [done|]. by destruct (Z.to_nat top_k - length hits)%nat. }
  rewrite Z.geb_leb. destruct (Z.leb_spec top_k (Z.of_nat (length acc))).
  { intros ?. simplify_eq. exists []. rewrite app_nil_r.
    replace (Z.to_nat top_k - length hits)%nat with 0%nat by lia.
    split; [done|constructor]. }
  rewrite filter_cons.
  destruct (sim !! idx) as [s|] eqn:Hs; rsimpl; [|done].
  destruct (index (movie_ids w) idx) as [movie_id|] eqn:Hid; rsimpl; [|done].
  destruct (lookup_meta (id_to_meta w) movie_id) as [meta|] eqn:Hmeta;
    rsimpl; [|done].
  destruct (passes filters meta) eqn:Hpass.
  - destruct (search_hit movie_id meta s) as [h|] eqn:Hh; rsimpl; [|done].
    intros Hrun. destruct (IH _ Hrun) as (new & -> & Hnew).
    exists (h :: new). rewrite <- app_assoc. split; [done|].
    rewrite decide_True by (unfold row_passes; by rewrite Hid, Hmeta).
    rewrite length_app in Hnew. simpl in Hnew.
    replace (Z.to_nat top_k - length acc)%nat
      with (S (Z.to_nat top_k - (length acc + 1)))%nat by lia.
    simpl. constructor; [|done]. by exists s, movie_id, meta.
  - intros Hrun. destruct (IH _ Hrun) as (new & -> & Hnew).
    exists new. split; [done|].
    by rewrite decide_False by (unfold row_passes; by rewrite Hid, Hmeta, Hpass).
Qed.

Lemma load_model_frame E w r w' :
  _load_model E w = (r, w') →
  generation w' = generation w ∧ cache w' = cache w ∧
  model_name w' = model_name w ∧
  ∃ evs, log w' = log w ++ evs ∧ Building ∉ evs.
Proof.
  unfold _load_model. intros H. exec.
  all: split_and!; try done.
  all: simpl; rewrite <- ?app_assoc.
  all: first [ by exists []; rewrite app_nil_r; split; [|apply not_elem_of_nil]
             | eexists; split; [reflexivity|] ].
  all: repeat (apply not_elem_of_cons; split; [done|]); apply not_elem_of_nil.
Qed.

Lemma ranked_search_first E query top_k filters w hits w' :
  ranked_search E query top_k filters w = (Ok hits, w') →
  (hits = [] ∧ rows w' = 0%nat) ∨
  ∃ text qv rest vs,
    text = (if contains (lit "bge") (lower (model_name w))
            then query_instruction ++ query else query) ∧
    encode E [text] = Ok (qv :: rest) ∧ vectors w' = Some vs ∧
    Forall2 (hit_of_row w' (cosine E qv <$> vs))
      (take (Z.to_nat top_k)
         (filter (λ i, row_passes w' (default ∅ filters) i = true)
                 (reverse (argsort E (cosine E qv <$> vs))))) hits.
Proof.
  unfold ranked_search, rows. run.
  destruct (vectors w) as [vs|] eqn:Hvs.
  2: { intros ?. simplify_eq. left. by rewrite Hvs. }
  case_bool_decide as Hlen.
  { intros ?. simplify_eq. left. by rewrite Hvs. }
  destruct (_load_model E w) as [[[]|e] w2] eqn:Hload; [|done].
  destruct (encode E _) as [query_vec|] eqn:Henc; simpl; [|done].
  destruct query_vec as [|qv rest]; [done|]. simpl.
  intros Hrun. injection Hrun as Hrun <-.
  destruct (load_model_frame _ _ _ _ Hload) as (Hgen & _ & Hname & _).
  destruct (search_loop_first _ _ _ _ _ _ _ Hrun) as (new & -> & Hnew).
  right.
  exists (if contains (lit "bge") (lower (model_name w))
          then query_instruction ++ query else query), qv, rest, vs.
  split_and!; [|exact Henc| |].
  - done.
  - unfold generation in Hgen. congruence.
  - simpl in *. by rewrite Nat.sub_0_r in Hnew.
Qed.

Lemma build_index_model_name E force w r w' :
  build_index E force w = (r, w') → model_name w' = model_name w.
Proof.
  unfold build_index, try_cache, _load_from_cache, rebuild, _load_model,
    _save_to_cache.
  intros H. by exec.
Qed.

Lemma search_ranked E query top_k filters w hits w' :
  search E query top_k filters w = (Ok hits, w') →
  ∃ w1, ranked_search E query top_k filters w1 = (Ok hits, w') ∧
        model_name w1 = model_name w.
Proof.
  rewrite search_split. destruct (not_none (vectors w)); [by eauto|].
  destruct (build_index E false w) as [[[]|e] w1] eqn:Hbuild; [|done].
  pose proof (build_index_model_name _ _ _ _ _ Hbuild). eauto.
Qed.

(** X12. [search] returns, in ranking order, the first [top_k] rows of the
    reversed [argsort] of the similarities that the filters let through,
    each with its own identifier, metadata and similarity.  The similarities
    are those between the rows of the matrix and the encoding of the text of
    the query: the query behind the retrieval instruction when the model
    name of the service, in lower case, contains "bge", and the query alone
    otherwise.  For [top_k <= 0] the result is empty. *)
Theorem search_first_passing E query top_k filters w hits w' :
  search E query top_k filters w = (Ok hits, w') →
  ((hits = [] ∧ rows w' = 0%nat) ∨
   ∃ text qv rest vs,
     text = (if contains (lit "bge") (lower (model_name w))
             then query_instruction ++ query else query) ∧
     encode E [text] = Ok (qv :: rest) ∧ vectors w' = Some vs ∧
     Forall2 (hit_of_row w' (cosine E qv <$> vs))
       (take (Z.to_nat top_k)
          (filter (λ i, row_passes w' (default ∅ filters) i = true)
                  (reverse (argsort E (cosine E qv <$> vs))))) hits) ∧
  (top_k ≤ 0 → hits = []).
Proof.
  intros Hrun.
  destruct (search_ranked _ _ _ _ _ _ _ Hrun) as (w1 & Hrank & Hname).
  pose proof (ranked_search_first _ _ _ _ _ _ _ Hrank) as Hfirst.
  rewrite Hname in Hfirst.
  split; [done|]. intros Hk.
  destruct Hfirst as [[-> _]|(text & qv & rest & vs & _ & _ & _ & Hall)]; [done|].
  replace (Z.to_nat top_k) with 0%nat in Hall by lia.
  rewrite take_0 in Hall. by apply Forall2_nil_inv_l in Hall.
Qed.

(** *** Order and multiplicity of the results *)

Lemma sublist_lookup_lt {A} (l1 l2 : list A) a b x y :
  l1 `sublist_of` l2 → (a < b)%nat → l1 !! a = Some x → l1 !! b = Some y →
  ∃ p q, (p < q)%nat ∧ l2 !! p = Some x ∧ l2 !! q = Some y.
Proof.
  intros Hsub. revert a b. induction Hsub as [|z l1 l2 Hsub IH|z l1 l2 Hsub IH];
    intros a b Hab Ha Hb.
  - done.
  - destruct a as [|a]; simpl in Ha.
    + destruct b as [|b]; [lia|]. simpl in Hb. simplify_eq.
      assert (y ∈ l2) as Hy.
      { eapply elem_of_sublist; [|exact Hsub]. apply list_elem_of_lookup; eauto. }
      apply list_elem_of_lookup in Hy as [q Hq].
      exists 0%nat, (S q). split_and!; [lia|done|done].
    + destruct b as [|b]; [lia|]. simpl in Hb.
      destruct (IH a b) as (p & q & ? & ? & ?); [lia|done|done|].
      exists (S p), (S q). split_and!; [lia|done|done].
  - destruct (IH a b) as (p & q & ? & ? & ?); [lia|done|done|].
    exists (S p), (S q). split_and!; [lia|done|done].
Qed.

Lemma descending_picks E (sim : list score) picks i j a b si sj :
  ascending E →
  picks `sublist_of` reverse (argsort E sim) →
  (a < b)%nat → picks !! a = Some i → picks !! b = Some j →
  sim !! i = Some si → sim !! j = Some sj →
  score_leb E sj si = true.
Proof.
  intros Hasc Hsub Hab Ha Hb Hi Hj.
  destruct (sublist_lookup_lt _ _ _ _ _ _ Hsub Hab Ha Hb) as (p & q & Hpq & Hp & Hq).
  apply reverse_lookup_Some in Hp as [Hp Hpl].
  apply reverse_lookup_Some in Hq as [Hq Hql].
  eapply (Hasc sim (length (argsort E sim) - S q)%nat
               (length (argsort E sim) - S p)%nat j i); [lia|done..].
Qed.

Lemma NoDup_picks E (sim : list score) picks :
  (∀ l, argsort E l ≡ₚ seq 0 (length l)) →
  picks `sublist_of` reverse (argsort E sim) → NoDup picks.
Proof.
  intros Hperm Hsub. eapply sublist_NoDup; [|exact Hsub].
  rewrite reverse_Permutation, Hperm. apply NoDup_seq.
Qed.

Lemma NoDup_rows (ids : list pyval) picks xs :
  NoDup ids → NoDup picks →
  Forall2 (λ i x, ids !! i = Some x) picks xs → NoDup xs.
Proof.
  intros Hids Hpicks Hall. apply NoDup_alt. intros a b x Ha Hb.
  destruct (Forall2_lookup_r _ _ _ _ _ Hall Ha) as (i & Hi & Hix).
  destruct (Forall2_lookup_r _ _ _ _ _ Hall Hb) as (j & Hj & Hjx).
  simpl in Hix, Hjx.
  assert (i = j) as -> by exact (NoDup_lookup _ _ _ _ Hids Hix Hjx).
  exact (NoDup_lookup _ _ _ _ Hpicks Hi Hj).
Qed.

Lemma picks_sublist w filters (l : list nat) n :
  take n (filter (λ i, row_passes w filters i = true) l) `sublist_of` l.
Proof. etrans; [apply sublist_take|apply sublist_filter]. Qed.

(** X13. When [argsort] returns a permutation of the positions in
    ascending order of their values, the results of [search] come with
    non-increasing similarity, and, the identifiers of the generation being
    distinct, no identifier is returned twice. *)
Theorem search_results_ranked E query top_k filters w hits w' :
  (∀ l, argsort E l ≡ₚ seq 0 (length l)) → ascending E →
  search E query top_k filters w = (Ok hits, w') →
  (∀ a b ha hb, (a < b)%nat → hits !! a = Some ha → hits !! b = Some hb →
     score_leb E (h_similarity hb) (h_similarity ha) = true) ∧
  (∀ ids, movie_ids w' = Some ids → NoDup ids → NoDup (h_id <$> hits)).
Proof.
  intros Hperm Hasc Hrun.
  destruct (search_ranked _ _ _ _ _ _ _ Hrun) as (w1 & Hrank & _).
  destruct (ranked_search_first _ _ _ _ _ _ _ Hrank)
    as [[-> _]|(text & qv & rest & vs & _ & _ & _ & Hall)].
  { split; [done|]. intros. constructor. }
  set (sim := cosine E qv <$> vs) in *.
  set (picks := take _ _) in Hall.
  assert (picks `sublist_of` reverse (argsort E sim)) as Hsub
    by apply picks_sublist.
  split.
  - intros a b ha hb Hab Ha Hb.
    destruct (Forall2_lookup_r _ _ _ _ _ Hall Ha)
      as (i & Hi & si & ? & ? & Hsi & _ & _ & Hhi).
    destruct (Forall2_lookup_r _ _ _ _ _ Hall Hb)
      as (j & Hj & sj & ? & ? & Hsj & _ & _ & Hhj).
    apply search_hit_fields in Hhi as [_ ->].
    apply search_hit_fields in Hhj as [_ ->].
    by eapply descending_picks.
  - intros ids Hids Hnd.
    eapply (NoDup_rows ids picks); [done|by eapply NoDup_picks|].
    apply Forall2_fmap_r. eapply Forall2_impl; [exact Hall|].
    intros i h (s & movie_id & meta & _ & Hid & _ & Hh). simpl.
    apply search_hit_fields in Hh as [-> _].
    rewrite Hids in Hid. simpl in Hid. by destruct (ids !! i); simplify_eq.
Qed.

(** *** Queries on a generation that a build produced *)

Lemma search_hit_total movie_id md (s : score) :
  displayable md → ∃ h, search_hit movie_id md s = Ok h.
Proof.
  intros ([t Ht] & [sc Hsc] & [p Hp] & d & Hd).
  unfold search_hit, getitem. rewrite Ht, Hsc, Hp, Hd. rsimpl. eauto.
Qed.

Lemma similar_hit_total E mid md (s : score) :
  displayable md → ∃ h, similar_hit E mid md s = Ok h.
Proof.
  intros ([t Ht] & [sc Hsc] & [p Hp] & d & Hd).
  unfold similar_hit, getitem. rewrite Ht, Hsc, Hp, Hd. rsimpl. eauto.
Qed.

Lemma meta_entry_displayable m k md :
  meta_entry m = Ok (k, md) → indexable m = Ok true → displayable md.
Proof.
  unfold meta_entry, indexable, item.
  destruct (m !! 0%nat) as [k0|]; [|done].
  destruct (m !! 3%nat) as [title|]; [|done].
  destruct (m !! 4%nat) as [sc|]; [|done].
  destruct (m !! 2%nat) as [pic|]; [|done].
  destruct (m !! 6%nat) as [intro|]; [|done].
  destruct (m !! 1%nat); [|done]. destruct (m !! 7%nat); [|done].
  destruct (m !! 8%nat); [|done]. destruct (m !! 9%nat); [|done].
  destruct (m !! 10%nat); [|done]. destruct (m !! 11%nat); [|done].
  intros H Hi. injection H as _ <-. rsimpl.
  destruct intro as [|z|d]; [done|by destruct (truthy (PInt z))|].
  unfold displayable. rewrite lookup_insert_eq.
  rewrite lookup_insert_ne, lookup_insert_eq by done.
  rewrite !lookup_insert_ne, lookup_insert_eq by done.
  split_and!; [done..|].
  exists d. by rewrite !lookup_insert_ne, lookup_insert_eq by done.
Qed.

Lemma built_servable E w :
  (∀ ss vs, encode E ss = Ok vs → length vs = length ss) →
  built_from E w → servable w.
Proof.
  intros Hrows (movies & valid & sentences & ids & entries & vs
                & _ & Hvalid & _ & Hsent & Hids & Hentries & Henc & Hgen).
  exists vs, ids, (dict_of entries). split_and!; [done| |].
  { rewrite (Hrows _ _ Henc), (res_mapM_length _ _ _ Hsent).
    by rewrite (res_mapM_length _ _ _ Hids). }
  intros id Hid.
  rewrite (ids_omap _ _ Hids), <- (entries_keys _ _ Hentries) in Hid.
  apply list_elem_of_fmap in Hid as ([k0 md0] & -> & Hin). simpl.
  rewrite dict_of_lookup_last.
  destruct (last (filter (λ kv, kv.1 = k0) entries)) as [[k md]|] eqn:Hlast.
  2: { apply last_None in Hlast.
       destruct (filter_nil_not_elem_of _ _ (k0, md0) Hlast eq_refl Hin). }
  exists md. split; [done|].
  assert ((k, md) ∈ filter (λ kv, kv.1 = k0) entries) as Hk.
  { apply last_Some in Hlast as [l' ->].
    rewrite elem_of_app, list_elem_of_singleton. auto. }
  apply list_elem_of_filter in Hk as [_ Hk].
  apply list_elem_of_lookup in Hk as [i Hi].
  destruct (res_mapM_lookup _ _ _ _ _ Hentries Hi) as (m & Hm & Hme).
  eapply meta_entry_displayable; [exact Hme|].
  assert (m ∈ valid) as Hmv by (apply list_elem_of_lookup; eauto).
  rewrite (res_filterM_filter _ _ _ Hvalid) in Hmv.
  by apply list_elem_of_filter in Hmv as [? _].
Qed.

Lemma servable_row w i :
  servable w → (i < rows w)%nat →
  ∃ movie_id md, index (movie_ids w) i = Ok movie_id ∧
                 lookup_meta (id_to_meta w) movie_id = Ok md ∧ displayable md.
Proof.
  intros (vs & ids & metas & Hgen & Hlen & Hmeta) Hi.
  unfold generation in Hgen. injection Hgen as Hv Hids Hm.
  unfold rows in Hi. rewrite Hv in Hi. simpl in Hi.
  destruct (lookup_lt_is_Some_2 ids i) as [id Hid]; [lia|].
  destruct (Hmeta id) as (md & Hmd & Hd).
  { apply list_elem_of_lookup. eauto. }
  exists id, md. rewrite Hids, Hm. simpl. by rewrite Hid, Hmd.
Qed.

Lemma search_loop_total w top_k filters (sim : list score) l acc :
  servable w → length sim = rows w → Forall (λ i, (i < rows w)%nat) l →
  ∃ hits, search_loop w top_k filters sim l acc = Ok hits.
Proof.
  intros Hserv Hsim Hl. revert acc.
  induction Hl as [|idx l Hidx _ IH]; intros acc; simpl; [by eauto|].
  destruct (_ >=? _); [by eauto|].
  destruct (lookup_lt_is_Some_2 sim idx) as [s ->]; [lia|]. rsimpl.
  destruct (servable_row _ _ Hserv Hidx) as (movie_id & md & -> & -> & Hd).
  rsimpl. destruct (passes filters md); [|apply IH].
  destruct (search_hit_total movie_id md s Hd) as [h ->]. rsimpl. apply IH.
Qed.

Lemma similar_loop_total E w (sim : list score) l :
  servable w → length sim = rows w → Forall (λ i, (i < rows w)%nat) l →
  ∃ hits, similar_loop E w sim l = Ok hits.
Proof.
  intros Hserv Hsim Hl.
  induction Hl as [|idx l Hidx _ [hs IH]]; simpl; [by eauto|].
  destruct (lookup_lt_is_Some_2 sim idx) as [s ->]; [lia|]. rsimpl.
  destruct (servable_row _ _ Hserv Hidx) as (movie_id & md & -> & -> & Hd).
  rsimpl. destruct (similar_hit_total E movie_id md s Hd) as [h ->]. rsimpl.
  rewrite IH. rsimpl. eauto.
Qed.

Lemma argsort_in_range E (sim : list score) :
  (∀ l, argsort E l ≡ₚ seq 0 (length l)) →
  Forall (λ i, (i < length sim)%nat) (argsort E sim).
Proof.
  intros Hperm. apply Forall_forall. intros i Hi.
  rewrite Hperm in Hi. apply elem_of_seq in Hi. lia.
Qed.

Lemma servable_generation w1 w2 :
  generation w1 = generation w2 → servable w2 → servable w1.
Proof.
  intros Hg (vs & ids & metas & Hgen & ?). exists vs, ids, metas.
  by rewrite Hg.
Qed.

Lemma ranked_search_total E query top_k filters w :
  servable w → encoder_available E w →
  (∀ ss, ∃ vs, encode E ss = Ok vs ∧ length vs = length ss) →
  (∀ l, argsort E l ≡ₚ seq 0 (length l)) →
  ∃ hits w', ranked_search E query top_k filters w = (Ok hits, w') ∧
             generation w' = generation w ∧ cache w' = cache w.
Proof.
  intros Hserv Hav Henc Hperm.
  destruct (load_model_available _ _ Hav) as (w1 & Hl & Hg & Hc & _).
  unfold ranked_search. run.
  destruct (vectors w) as [vs|] eqn:Hvs; [|by eauto].
  case_bool_decide; [by eauto|]. rewrite Hl.
  set (text := if contains _ _ then _ else _).
  destruct (Henc [text]) as (qvs & -> & Hone). simpl.
  destruct qvs as [|qv rest]; [done|]. simpl.
  assert (rows w1 = length vs) as Hrows.
  { unfold rows. unfold generation in Hg. injection Hg as -> _ _.
    by rewrite Hvs. }
  edestruct (search_loop_total w1 top_k (default ∅ filters)
               (cosine E qv <$> vs)) as [hits ->].
  - by eapply servable_generation.
  - by rewrite length_fmap.
  - apply Forall_reverse. rewrite Hrows, <- (length_fmap (cosine E qv) vs).
    by apply argsort_in_range.
  - eauto.
Qed.

(** X14. On a generation that a rebuild computed from the table, [search]
    raises nothing, whatever the query, [top_k] and the filters, as long as
    the encoder is available and encodes: every ranked position has an
    identifier, every identifier has metadata with the four fields that are
    indexed into, and the description is text.  It leaves generation and
    cache file unchanged. *)
Theorem search_total_on_built_index E w query top_k filters :
  built_from E w → encoder_available E w →
  (∀ ss, ∃ vs, encode E ss = Ok vs ∧ length vs = length ss) →
  (∀ l, argsort E l ≡ₚ seq 0 (length l)) →
  ∃ hits w', search E query top_k filters w = (Ok hits, w') ∧
             generation w' = generation w ∧ cache w' = cache w.
Proof.
  intros Hbuilt Hav Henc Hperm.
  rewrite search_split.
  pose proof (built_from_vectors _ _ Hbuilt) as Hv.
  destruct (vectors w) eqn:Hvs; [|done]. simpl.
  apply ranked_search_total; try done.
  eapply built_servable; [|exact Hbuilt].
  intros ss vs Hss. destruct (Henc ss) as (vs' & Hss' & Hlen). congruence.
Qed.

Lemma slice_sublist {A} (l : list A) start stop :
  slice l start stop `sublist_of` l.
Proof. unfold slice. etrans; [apply sublist_drop|apply sublist_take]. Qed.

Lemma index_of_Some (movie_id : pyval) ids idx :
  index_of movie_id ids = Some idx → ids !! idx = Some movie_id.
Proof.
  unfold index_of. destruct (list_find _ ids) as [[i x]|] eqn:Hfind; [|done].
  intros [= <-]. by apply list_find_Some in Hfind as (? & -> & _).
Qed.

(** X18. On a generation that a rebuild computed from the table,
    [search_by_id] raises nothing and changes nothing, for every identifier,
    known or not, and every [top_k]. *)
Theorem search_by_id_total_on_built_index E w movie_id top_k :
  built_from E w →
  (∀ ss vs, encode E ss = Ok vs → length vs = length ss) →
  (∀ l, argsort E l ≡ₚ seq 0 (length l)) →
  ∃ hits, search_by_id E movie_id top_k w = (Ok hits, w).
Proof.
  intros Hbuilt Hrows Hperm.
  pose proof (built_servable _ _ Hrows Hbuilt) as Hserv.
  destruct Hserv as (vs & ids & metas & Hgen & Hlen & Hmeta).
  assert (servable w) as Hserv by (by exists vs, ids, metas).
  unfold generation in Hgen. injection Hgen as Hv Hids Hm.
  unfold search_by_id. run. rewrite Hv. simpl. rewrite Hids.
  destruct (index_of movie_id ids) as [idx|] eqn:Hidx; [|by eauto].
  apply index_of_Some, lookup_lt_Some in Hidx.
  simpl. rewrite Hv. simpl.
  destruct (lookup_lt_is_Some_2 vs idx) as [v ->]; [lia|]. simpl.
  edestruct (similar_loop_total E w (cosine E v <$> vs)) as [hits ->];
    [exact Hserv| | |by eauto].
  - unfold rows. rewrite Hv. simpl. by rewrite length_fmap.
  - unfold rows. rewrite Hv. simpl.
    apply Forall_forall. intros i Hi.
    eapply elem_of_sublist in Hi; [|apply slice_sublist].
    rewrite reverse_Permutation, Hperm in Hi.
    apply elem_of_seq in Hi. rewrite length_fmap in Hi. lia.
Qed.

(** *** How many results [search_by_id] returns *)

Lemma length_slice_from_1 {A} (l : list A) stop :
  Z.of_nat (length (slice l 1 stop)) =
  Z.max 0 ((if stop <? 0 then Z.max 0 (stop + Z.of_nat (length l))
            else Z.min stop (Z.of_nat (length l))) - 1).
Proof.
  unfold slice. rewrite length_drop, length_take.
  destruct (Z.ltb_spec stop 0); lia.
Qed.

(** X16. For an identifier of the index and [n] rows, [search_by_id]
    returns [min(top_k, n - 1)] results when [top_k >= 0], not [top_k].  A
    negative [top_k] is not read as zero: the slice [[1 : top_k + 1]] then
    counts from the end, giving no result for -1 and [n + top_k] results
    (none below zero) for [top_k <= -2].  With distinct identifiers in the
    index no identifier is returned twice. *)
Theorem search_by_id_count E w vs ids movie_id top_k hits w' :
  vectors w = Some vs → movie_ids w = Some ids → movie_id ∈ ids →
  (∀ l, argsort E l ≡ₚ seq 0 (length l)) →
  search_by_id E movie_id top_k w = (Ok hits, w') →
  (0 ≤ top_k →
     Z.of_nat (length hits) = Z.min top_k (Z.of_nat (length vs) - 1)) ∧
  (top_k = -1 → hits = []) ∧
  (top_k ≤ -2 →
     Z.of_nat (length hits) = Z.max 0 (Z.of_nat (length vs) + top_k)) ∧
  (NoDup ids → NoDup (h_id <$> hits)).
Proof.
  intros Hv Hids Hin Hperm.
  unfold search_by_id. run. rewrite Hv. simpl. rewrite Hids.
  destruct (index_of movie_id ids) as [idx|] eqn:Hidx.
  2: { unfold index_of in Hidx.
       destruct (list_find_elem_of (λ x, x = movie_id) ids movie_id Hin eq_refl)
         as [[i x] Hfind].
       by rewrite Hfind in Hidx. }
  simpl. rewrite Hv. simpl.
  destruct (vs !! idx) as [v|] eqn:Hrow; simpl; [|done].
  set (sim := cosine E v <$> vs). set (L := argsort E sim).
  intros Hrun. injection Hrun as Hrun _.
  pose proof (similar_loop_ids _ _ _ _ _ Hrun) as Hall.
  pose proof (Forall2_length _ _ _ Hall) as Hlen.
  pose proof (length_slice_from_1 (reverse L) (top_k + 1)) as Hslice.
  assert (length (reverse L) = length vs) as HL.
  { rewrite length_reverse. unfold L. rewrite Hperm, length_seq.
    unfold sim. by rewrite length_fmap. }
  rewrite HL, Hlen in Hslice.
  apply lookup_lt_Some in Hrow.
  split_and!.
  - intros Hk. destruct (Z.ltb_spec (top_k + 1) 0); lia.
  - intros ->. simpl in Hslice. destruct hits; [done|simpl in Hslice; lia].
  - intros Hk. destruct (Z.ltb_spec (top_k + 1) 0); lia.
  - intros Hnd.
    eapply (NoDup_rows ids (slice (reverse L) 1 (top_k + 1))); [done| |].
    + eapply sublist_NoDup; [|apply slice_sublist].
      rewrite reverse_Permutation. unfold L. rewrite Hperm. apply NoDup_seq.
    + apply Forall2_fmap_r. eapply Forall2_impl; [exact Hall|].
      intros i h Hi. simpl. rewrite Hids in Hi. simpl in Hi.
      by destruct (ids !! i); simplify_eq.
Qed.

(** X17. When [argsort] sorts and the queried row is strictly closer to
    itself than to every other row, the queried row ranks first, the slice
    drops it, and its identifier is not among the results of
    [search_by_id]. *)
Theorem search_by_id_excludes_closest E w vs ids movie_id idx v top_k hits w' :
  vectors w = Some vs → movie_ids w = Some ids → NoDup ids →
  index_of movie_id ids = Some idx → vs !! idx = Some v →
  (∀ l, argsort E l ≡ₚ seq 0 (length l)) → ascending E →
  (∀ j u, j ≠ idx → vs !! j = Some u →
          score_leb E (cosine E v v) (cosine E v u) = false) →
  search_by_id E movie_id top_k w = (Ok hits, w') →
  movie_id ∉ h_id <$> hits.
Proof.
  intros ? ? ? ? ? ? Hasc **. eapply search_by_id_excludes_self; eauto.
Qed.

Lemma ranked_search_frame E query top_k filters w r w' :
  ranked_search E query top_k filters w = (r, w') →
  generation w' = generation w ∧ cache w' = cache w ∧
  ∃ evs, log w' = log w ++ evs ∧ Building ∉ evs.
Proof.
  assert (generation w = generation w ∧ cache w = cache w ∧
          ∃ evs, log w = log w ++ evs ∧ Building ∉ evs) as Hsame.
  { split_and!; [done..|]. exists []. rewrite app_nil_r.
    split; [done|apply not_elem_of_nil]. }
  unfold ranked_search. run. destruct (vectors w) as [vs|].
  2: { intros ?. simplify_eq. exact Hsame. }
  case_bool_decide; [intros ?; simplify_eq; exact Hsame|].
  destruct (_load_model E w) as [[[]|e] w2] eqn:Hload.
  all: destruct (load_model_frame _ _ _ _ Hload) as (Hg & Hc & _ & Hevs).
  all: assert (generation w2 = generation w ∧ cache w2 = cache w ∧
               ∃ evs, log w2 = log w ++ evs ∧ Building ∉ evs) as Hframe
         by done.
  2: { intros ?. simplify_eq. exact Hframe. }
  destruct (encode E _); simpl; [|intros ?; simplify_eq; exact Hframe].
  destruct (cosine_similarity_0 _ _ _); simpl; intros ?; simplify_eq;
    exact Hframe.
Qed.

(** X15. With a matrix in memory a query starts no build.  [search_by_id]
    changes nothing at all: it loads no encoder and logs nothing.  [search]
    leaves generation and cache file as they are, and what it logs contains
    no build. *)
Theorem queries_start_no_build E w :
  vectors w ≠ None →
  (∀ movie_id top_k r w',
     search_by_id E movie_id top_k w = (r, w') → w' = w) ∧
  (∀ query top_k filters r w',
     search E query top_k filters w = (r, w') →
     generation w' = generation w ∧ cache w' = cache w ∧
     ∃ evs, log w' = log w ++ evs ∧ Building ∉ evs).
Proof.
  intros Hv. split.
  - intros movie_id top_k r w'. unfold search_by_id. run.
    destruct (vectors w); [|done]. simpl. intros H. by exec.
  - intros query top_k filters r w'. rewrite search_split.
    destruct (vectors w) as [vs|] eqn:Hvs; [|done]. simpl.
    apply ranked_search_frame.
Qed.

(** *** The fields of a result *)

Lemma meta_entry_fields m k md :
  meta_entry m = Ok (k, md) →
  m !! 0%nat = Some k ∧
  md !! "title" = m !! 3%nat ∧ md !! "score" = m !! 4%nat ∧
  md !! "pic" = m !! 2%nat ∧ md !! "intro" = m !! 6%nat ∧
  md !! "url" = m !! 1%nat ∧ md !! "year" = m !! 7%nat.
Proof.
  unfold meta_entry, item.
  destruct (m !! 0%nat) as [k0|]; [|done].
  destruct (m !! 3%nat) as [title|]; [|done].
  destruct (m !! 4%nat) as [sc|]; [|done].
  destruct (m !! 2%nat) as [pic|]; [|done].
  destruct (m !! 6%nat) as [intro|]; [|done].
  destruct (m !! 1%nat) as [url|]; [|done].
  destruct (m !! 7%nat) as [year|]; [|done].
  destruct (m !! 8%nat); [|done]. destruct (m !! 9%nat); [|done].
  destruct (m !! 10%nat); [|done]. destruct (m !! 11%nat); [|done].
  intros H. injection H as <- <-.
  split_and!; [done|..].
  all: by rewrite ?lookup_insert_ne, lookup_insert_eq by done.
Qed.

Lemma built_meta_row E w id meta :
  built_from E w → lookup_meta (id_to_meta w) id = Ok meta →
  ∃ movies m, get_all_movies E = Ok movies ∧ m ∈ movies ∧
              indexable m = Ok true ∧ meta_entry m = Ok (id, meta).
Proof.
  intros (movies & valid & sentences & ids & entries & vs
          & Hget & Hvalid & _ & _ & _ & Hentries & _ & Hgen).
  unfold generation in Hgen. injection Hgen as _ _ ->. simpl.
  destruct (dict_of entries !! id) as [md|] eqn:Hmd; [|done].
  intros [= <-]. rewrite dict_of_lookup_last in Hmd.
  destruct (last (filter (λ kv, kv.1 = id) entries)) as [[k md']|] eqn:Hlast;
    [|done].
  simpl in Hmd. injection Hmd as ->.
  assert ((k, md) ∈ filter (λ kv, kv.1 = id) entries) as Hk.
  { apply last_Some in Hlast as [l' ->].
    rewrite elem_of_app, list_elem_of_singleton. auto. }
  apply list_elem_of_filter in Hk as [Hkid Hk]. simpl in Hkid. subst k.
  apply list_elem_of_lookup in Hk as [i Hi].
  destruct (res_mapM_lookup _ _ _ _ _ Hentries Hi) as (m & Hm & Hme).
  assert (m ∈ valid) as Hmv by (apply list_elem_of_lookup; eauto).
  rewrite (res_filterM_filter _ _ _ Hvalid) in Hmv.
  apply list_elem_of_filter in Hmv as [? ?].
  by exists movies, m.
Qed.

Lemma meta_entry_year m k md :
  meta_entry m = Ok (k, md) → is_Some (m !! 7%nat).
Proof.
  intros Hm. apply lookup_lt_is_Some.
  destruct (decide (length m < 12)%nat) as [Hlt|]; [|lia].
  by rewrite (meta_entry_narrow _ Hlt) in Hm.
Qed.

Lemma search_hit_shows m movie_id meta (s : score) h :
  meta_entry m = Ok (movie_id, meta) → search_hit movie_id meta s = Ok h →
  shows 100 m h ∧ h_url h = Some (default (PStr []) (m !! 1%nat)) ∧
  h_similarity h = s.
Proof.
  intros Hm. destruct (meta_entry_fields _ _ _ Hm)
    as (H0 & Ht & Hs & Hp & Hi & Hu & Hy).
  destruct (meta_entry_year _ _ _ Hm) as [year E7].
  unfold search_hit, getitem, get_or_empty. rewrite Ht, Hs, Hp, Hi, Hu, Hy, E7.
  destruct (m !! 3%nat) as [title|] eqn:E3; [|done].
  destruct (m !! 4%nat) as [sc|] eqn:E4; [|done].
  destruct (m !! 2%nat) as [pic|] eqn:E2; [|done].
  destruct (m !! 6%nat) as [[| |d]|] eqn:E6; try done. rsimpl.
  intros [= <-]. unfold shows. simpl. split_and!; try done. by exists d.
Qed.

Lemma similar_hit_shows E m mid meta (s : score) h :
  meta_entry m = Ok (mid, meta) → similar_hit E mid meta s = Ok h →
  shows 60 m h ∧ h_url h = None ∧ h_similarity h = percent E s.
Proof.
  intros Hm. destruct (meta_entry_fields _ _ _ Hm)
    as (H0 & Ht & Hs & Hp & Hi & Hu & Hy).
  destruct (meta_entry_year _ _ _ Hm) as [year E7].
  unfold similar_hit, getitem, get_or_empty. rewrite Ht, Hs, Hp, Hi, Hy, E7.
  destruct (m !! 3%nat) as [title|] eqn:E3; [|done].
  destruct (m !! 4%nat) as [sc|] eqn:E4; [|done].
  destruct (m !! 2%nat) as [pic|] eqn:E2; [|done].
  destruct (m !! 6%nat) as [[| |d]|] eqn:E6; try done. rsimpl.
  intros [= <-]. unfold shows. simpl. split_and!; try done. by exists d.
Qed.

Lemma similar_loop_rows E w (sim : list score) idxs hits :
  similar_loop E w sim idxs = Ok hits →
  Forall (λ h, ∃ s mid meta, lookup_meta (id_to_meta w) mid = Ok meta ∧
                             similar_hit E mid meta s = Ok h) hits.
Proof.
  revert hits. induction idxs as [|i idxs IH]; intros hits; simpl.
  { intros ?. simplify_eq. constructor. }
  destruct (sim !! i) as [s|]; rsimpl; [|done].
  destruct (index (movie_ids w) i) as [mid|] eqn:Hmid; rsimpl; [|done].
  destruct (lookup_meta (id_to_meta w) mid) as [meta|] eqn:Hmeta; rsimpl; [|done].
  destruct (similar_hit E mid meta s) as [h|] eqn:Hh; rsimpl; [|done].
  destruct (similar_loop E w sim idxs) as [hs|]; rsimpl; [|done].
  intros ?. simplify_eq. constructor; [|by apply IH]. eauto.
Qed.

(** X19. On a generation that a rebuild computed from the table, every
    result of either query displays a row of the table: an indexable row
    whose identifier, title, score, picture and year are those of the
    result, and whose description, cut after 100 characters ([search]) or
    60 ([search_by_id]), is followed by three dots whether or not anything
    was cut.  [search] adds the url of the row, [search_by_id] has none. *)
Theorem results_show_table_rows E w movies :
  built_from E w → get_all_movies E = Ok movies →
  (∀ query top_k filters hits w',
     search E query top_k filters w = (Ok hits, w') →
     ∀ h, h ∈ hits →
       ∃ m, m ∈ movies ∧ indexable m = Ok true ∧ shows 100 m h ∧
            h_url h = Some (default (PStr []) (m !! 1%nat))) ∧
  (∀ movie_id top_k hits w',
     search_by_id E movie_id top_k w = (Ok hits, w') →
     ∀ h, h ∈ hits →
       ∃ m, m ∈ movies ∧ indexable m = Ok true ∧ shows 60 m h ∧
            h_url h = None).
Proof.
  intros Hbuilt Hget.
  pose proof (built_from_vectors _ _ Hbuilt) as Hv.
  assert (∀ id meta, lookup_meta (id_to_meta w) id = Ok meta →
            ∃ m, m ∈ movies ∧ indexable m = Ok true ∧
                 meta_entry m = Ok (id, meta)) as Hrow.
  { intros id meta Hmeta.
    destruct (built_meta_row _ _ _ _ Hbuilt Hmeta) as (movies' & m & ? & ? & ? & ?).
    assert (movies' = movies) as -> by congruence. eauto. }
  split.
  - intros query top_k filters hits w' Hrun h Hh.
    rewrite search_split in Hrun.
    destruct (vectors w) eqn:Hvs; [|done]. simpl in Hrun.
    destruct (ranked_search_frame _ _ _ _ _ _ _ Hrun) as (Hgen & _).
    destruct (ranked_search_first _ _ _ _ _ _ _ Hrun)
      as [[-> _]|(text & qv & rest & vs & _ & _ & _ & Hall)].
    { by apply elem_of_nil in Hh. }
    apply list_elem_of_lookup in Hh as [p Hp].
    destruct (Forall2_lookup_r _ _ _ _ _ Hall Hp)
      as (i & _ & s & id & meta & _ & _ & Hmeta & Hhit).
    assert (id_to_meta w' = id_to_meta w) as Hm
      by (unfold generation in Hgen; congruence).
    rewrite Hm in Hmeta. destruct (Hrow _ _ Hmeta) as (m & ? & ? & Hme).
    destruct (search_hit_shows _ _ _ _ _ Hme Hhit) as (? & ? & _).
    by exists m.
  - intros movie_id top_k hits w' Hrun h Hh.
    revert Hrun. unfold search_by_id. run.
    destruct (vectors w) as [vs|] eqn:Hvs; [|done]. simpl.
    destruct (movie_ids w) as [ids|]; [|done].
    destruct (index_of movie_id ids) as [idx|].
    2: { intros ?. simplify_eq. by apply elem_of_nil in Hh. }
    simpl. rewrite Hvs. simpl. destruct (vs !! idx) as [v|]; simpl; [|done].
    intros Hrun. injection Hrun as Hrun _.
    pose proof (similar_loop_rows _ _ _ _ _ Hrun) as Hall.
    rewrite Forall_forall in Hall.
    destruct (Hall h Hh) as (s & mid & meta & Hmeta & Hhit).
    destruct (Hrow _ _ Hmeta) as (m & ? & ? & Hme).
    destruct (similar_hit_shows _ _ _ _ _ _ Hme Hhit) as (? & ? & _).
    by exists m.
Qed.

(** X20. A service without matrix, identifier list and cache file, over a
    table without an indexable row: the build that either query asks for
    returns without an index.  [search] then returns the empty list, whereas
    [search_by_id] raises [TypeError] at [movie_id not in self.movie_ids],
    for every identifier.  Neither changes the generation. *)
Theorem queries_without_index E w movies :
  vectors w = None → movie_ids w = None → cache w = NoFile →
  encoder_available E w → get_all_movies E = Ok movies →
  Forall (λ m, indexable m = Ok false) movies →
  (∀ query top_k filters,
     ∃ w', search E query top_k filters w = (Ok [], w') ∧
           generation w' = generation w) ∧
  (∀ movie_id top_k,
     ∃ w', search_by_id E movie_id top_k w = (Raise TypeError, w') ∧
           generation w' = generation w).
Proof.
  intros Hv Hids Hc Hav Hget Hnone.
  destruct (rebuild_none _ _ _ Hav Hget Hnone) as (w1 & Hrun & Hgen & _).
  rewrite <- (build_index_rebuild E false) in Hrun by auto.
  assert (vectors w1 = None ∧ movie_ids w1 = None) as [Hv1 Hids1].
  { unfold generation in Hgen. split; congruence. }
  split.
  - intros query top_k filters. exists w1. split; [|done].
    rewrite search_split, Hv. simpl. rewrite Hrun.
    apply ranked_search_empty. auto.
  - intros movie_id top_k. exists w1. split; [|done].
    unfold search_by_id. run. rewrite Hv. simpl. rewrite Hrun.
    by rewrite Hids1.
Qed.

End Properties.

(** ** The model run on concrete tables *)

Import Demo.

Example strip_hello : strip (lit "  hello world ") = lit "hello world".
Proof. evaluate. Qed.

Example isspace_ideographic : strip [12288; 30005; 24433; 10]%N = [30005; 24433]%N.
Proof. evaluate. Qed.

Example search_year_date :
  search_year (lit "1994-09-10(US)") = Some 1994 ∧
  search_year (lit "c. 199x") = None ∧
  search_year [1633; 1641; 1641; 1636]%N = Some 1994.
Proof. split_and!; evaluate. Qed.

Example str_values :
  str (PInt 1994) = lit "1994" ∧ str (PInt (-5)) = lit "-5" ∧
  str (PInt 0) = lit "0" ∧ str PNone = lit "None".
Proof. split_and!; evaluate. Qed.

Example slice_positions :
  slice [10; 20; 30; 40]%nat 1 3 = [20; 30]%nat ∧
  slice [10; 20; 30; 40]%nat 1 (-1) = [20; 30]%nat ∧
  slice [10; 20; 30; 40]%nat 1 7 = [20; 30; 40]%nat ∧
  slice [10]%nat 1 7 = [].
Proof. split_and!; evaluate. Qed.

Example sentence_of_row :
  sentence (row 2 "Forrest Gump" 1994 "hello world")
  = Ok ([30005; 24433; 12298]%N ++ lit "Forrest Gump" ++ [12299; 20110]%N
        ++ lit "1994" ++ [24180; 19978; 26144; 65292; 20135; 22320]%N
        ++ lit "US" ++ [65292; 31867; 22411; 20026]%N ++ lit "Drama"
        ++ [12290; 30001]%N ++ lit "Someone" ++ [25191; 23548; 65292]%N
        ++ lit "Somebody" ++ [20027; 28436; 12290; 21095; 24773; 31616; 20171; 65306]%N
        ++ lit "hello world").
Proof. evaluate. Qed.

Lemma insert_sorted_perm x l : insert_sorted x l ≡ₚ x :: l.
Proof.
  induction l as [|y l IH]; [done|]. simpl.
  destruct (x.2 <? y.2); [done|]. rewrite IH. apply Permutation_swap.
Qed.

Lemma stable_argsort_perm (l : list Z) : stable_argsort l ≡ₚ seq 0 (length l).
Proof.
  unfold stable_argsort.
  assert (∀ (k acc : list (nat * Z)),
            foldl (λ acc x, insert_sorted x acc) acc k ≡ₚ k ++ acc) as Hfold.
  { induction k as [|x k IH]; intros acc; [done|]. simpl.
    rewrite IH, insert_sorted_perm. by rewrite Permutation_middle. }
  rewrite Hfold, app_nil_r.
  assert ((imap pair l).*1 = seq 0 (length l)) as ->; [|done].
  apply list_eq. intros i.
  rewrite list_lookup_fmap, list_lookup_imap.
  destruct (l !! i) as [x|] eqn:Hi; simpl.
  - symmetry. apply lookup_seq. split; [done|]. by eapply lookup_lt_Some.
  - symmetry. apply lookup_seq_ge. by apply lookup_ge_None.
Qed.

Lemma run_after {A} (m : @M (list Z) A) w r :
  (m w).1 = r → m w = (r, after m w).
Proof. unfold after. by destruct (m w) as [r' w']; simpl; intros ->. Qed.

Lemma value_ok {A} (d : A) (r : res A) : is_ok r = true → r = Ok (value d r).
Proof. by destruct r. Qed.

(** The index built over [three_movies] is aligned. *)
Lemma build_index_alignment_witness :
  aligned (online three_movies) (after (build_index (online three_movies) false) fresh).
Proof.
  apply (build_index_alignment (online three_movies) false fresh _
           [ModelLoading; ModelLoaded; Building; Encoding 2; Built]).
  - intros ss vs H. injection H as <-. apply length_fmap.
  - intros movies H. injection H as <-.
    apply (bool_decide_unpack _). by vm_compute.
  - apply run_after. evaluate.
  - evaluate.
  - apply (bool_decide_unpack _). by vm_compute.
Defined.

(** C2 fails on the code.  The service holds the generation of
    [two_movies]; the table now is [duplicated]; a forced rebuild in which the
    batch [encode] raises leaves the new three identifiers next to the old
    two-row matrix.  And a new process whose encoder does not load is left
    with the generation of the cache file it had just found stale.  The same
    holds for the other failures after the first assignment: a row without
    the last columns makes the metadata comprehension raise with the
    identifier list already replaced, and a cache write that raises leaves
    the whole new generation in place. *)
Lemma failed_build_changes_generation :
  let run := build_index (demo_env (Ok ()) true (Ok duplicated)) true in
  let start :=
    build_index (demo_env (Raise ModelLoadError) false (Ok three_movies)) false in
  let narrow := build_index (online [narrow_row]) true in
  let full := build_index (disk_full duplicated) true in
  ((run serving).1 = Raise EncodeError ∧
   generation (after run serving) ≠ generation serving ∧
   vectors (after run serving) = vectors serving ∧
   length <$> vectors (after run serving) = Some 2%nat ∧
   movie_ids serving = Some [PInt 1; PInt 2] ∧
   movie_ids (after run serving) = Some [PInt 1; PInt 2; PInt 3]) ∧
  ((start restarted).1 = Raise ModelLoadError ∧
   generation restarted = (None, None, None) ∧
   generation (after start restarted) = generation serving) ∧
  ((narrow serving).1 = Raise IndexError ∧
   movie_ids (after narrow serving) = Some [PInt 7] ∧
   vectors (after narrow serving) = vectors serving ∧
   id_to_meta (after narrow serving) = id_to_meta serving) ∧
  ((full serving).1 = Raise OSError ∧
   movie_ids (after full serving) = Some [PInt 1; PInt 2; PInt 3] ∧
   length <$> vectors (after full serving) = Some 3%nat).
Proof.
  intros run start narrow full. split_and!; try evaluate.
  intros H. apply (f_equal (λ g, g.1.2)) in H. vm_compute in H. discriminate.
Qed.

(** An encoder that does not load, met by a forced rebuild on a service that
    holds an index and by a new process that finds a file it cannot
    unpickle; a table that cannot be read and a table with a row cut off
    before the description, each met by a forced rebuild. *)
Lemma build_failure_state_witness :
  (∃ w', build_index (demo_env (Raise ModelLoadError) false (Ok duplicated))
                     true adopted = (Raise ModelLoadError, w') ∧
         generation w' = generation adopted) ∧
  (∃ w', build_index (demo_env (Raise ModelLoadError) false (Ok two_movies))
                     false (init default_model_name Unreadable)
         = (Raise ModelLoadError, w') ∧
         generation w' = generation (init default_model_name Unreadable)) ∧
  (∃ w', build_index (demo_env (Ok ()) false (Raise StorageError))
                     true serving = (Raise StorageError, w') ∧
         generation w' = generation serving) ∧
  (∃ w', build_index (online (two_movies ++ [cut_row])) true serving
         = (Raise IndexError, w') ∧
         generation w' = generation serving).
Proof.
  split_and!.
  - destruct (build_failure_state
                (demo_env (Raise ModelLoadError) false (Ok duplicated))
                true adopted (or_introl eq_refl)) as (H1 & _).
    apply H1; evaluate.
  - destruct (build_failure_state
                (demo_env (Raise ModelLoadError) false (Ok two_movies))
                false (init default_model_name Unreadable)
                (or_intror (conj eq_refl I))) as (H1 & _).
    apply H1; reflexivity.
  - destruct (build_failure_state
                (demo_env (Ok ()) false (Raise StorageError))
                true serving (or_introl eq_refl)) as (_ & H2 & _).
    apply H2; [left|]; evaluate.
  - destruct (build_failure_state
                (online (two_movies ++ [cut_row]))
                true serving (or_introl eq_refl)) as (_ & _ & H3).
    apply (H3 IndexError (two_movies ++ [cut_row])); [left| |]; evaluate.
Defined.

(** C3 fails on the code.  Two rows with the same text get the same vector
    and tie at the top of every ranking; the slice drops one of the two by
    position, and for the identifier of the other the result starts with that
    very identifier. *)
Theorem search_by_id_returns_self :
  let run := search_by_id (online duplicated) (PInt 1) 6 in
  movie_ids (after run fresh) = Some [PInt 1; PInt 2; PInt 3] ∧
  hit_ids (run fresh).1 = Ok [PInt 1; PInt 3].
Proof. split; evaluate. Qed.

(** C4 fails on the code.  On a table without an indexable record the build
    leaves every attribute [None], and [search_by_id] then raises [TypeError]
    at [movie_id not in self.movie_ids] instead of returning the empty list,
    which is what [search] returns there. *)
Theorem search_by_id_without_index :
  let run := search_by_id (online [short_movie]) (PInt 3) 6 in
  (run fresh).1 = Raise TypeError ∧
  generation (after run fresh) = (None, None, None) ∧
  (search (online [short_movie]) (lit "anything") 5 None fresh).1 = Ok [].
Proof. split_and!; evaluate. Qed.



(** The year filter given as text raises on every candidate; row 1 of
    [serving] is appended and the scan goes on with row 0. *)
Lemma filter_fault_is_pass_witness :
  search_loop serving 5 text_year_filter [10; 20] ([] ++ 1%nat :: [0%nat]) []
  = search_loop serving 5 text_year_filter [10; 20] [0%nat] ([] ++ [gump_hit]) ∧
  ∀ hits,
    search_loop serving 5 text_year_filter [10; 20] ([] ++ 1%nat :: [0%nat]) []
    = Ok hits →
    hits !! length (@nil (@hit Z)) = Some gump_hit.
Proof.
  apply (filter_fault_is_pass serving 5 text_year_filter [10; 20]
           [] 1%nat [0%nat] [] TypeError 20 (PInt 2)
           (value ∅ (lookup_meta (id_to_meta serving) (PInt 2))) gump_hit).
  - reflexivity.
  - reflexivity.
  - reflexivity.
  - evaluate.
  - apply value_ok. evaluate.
  - evaluate.
  - evaluate.
Defined.

(** A new process over the same table adopts the file; over a table with one
    more row, or with an unreadable file, it rebuilds. *)
Lemma cache_policy_witness :
  build_index (online two_movies) false restarted
  = (Ok (), add_log CacheAdopted
              (loaded (vectors serving) (Some [PInt 1; PInt 2])
                      (id_to_meta serving) restarted)) ∧
  build_index (online three_movies) false restarted
  = rebuild (online three_movies)
      (add_log (CacheStale 3 2)
         (loaded (vectors serving) (Some [PInt 1; PInt 2])
                 (id_to_meta serving) restarted)) ∧
  build_index (online two_movies) false (init default_model_name Unreadable)
  = rebuild (online two_movies)
      (add_log (CacheLoadFailed UnpicklingError)
         (init default_model_name Unreadable)).
Proof.
  assert (cache restarted ≠ NoFile) as Hfile.
  { intros H. apply (f_equal exists_) in H. vm_compute in H. discriminate. }
  assert (cache restarted
          = Pickled (Bundle (Some (vectors serving)) (Some (Some [PInt 1; PInt 2]))
                            (Some (id_to_meta serving)))) as Hblob by evaluate.
  split_and!.
  - destruct (cache_policy (online two_movies) restarted eq_refl Hfile)
      as (Hcmp & _ & _).
    by apply (Hcmp _ _ _ two_movies Hblob eq_refl).
  - destruct (cache_policy (online three_movies) restarted eq_refl Hfile)
      as (Hcmp & _ & _).
    by apply (Hcmp _ _ _ three_movies Hblob eq_refl).
  - assert (@cache (list Z) (init default_model_name Unreadable) ≠ NoFile)
      as Hfile' by done.
    destruct (cache_policy (online two_movies)
                (init default_model_name Unreadable) eq_refl Hfile')
      as (_ & Hfail & _).
    by apply Hfail.
Defined.

(** The rows of [three_movies] that are indexed. *)
Lemma index_membership_witness :
  ∃ valid,
    movie_ids (after (build_index (online three_movies) false) fresh)
    = Some (omap (λ m, m !! 0%nat) valid) ∧
    length (omap (λ m : list pyval, m !! 0%nat) valid) = length valid ∧
    (∀ m, m ∈ valid ↔ m ∈ three_movies ∧ (5 < trimmed_length m)%nat) ∧
    (∀ m, m ∈ three_movies → (trimmed_length m ≤ 5)%nat → m ∉ valid) ∧
    (∀ m, m ∈ three_movies → trimmed_length m = 11%nat → m ∈ valid).
Proof.
  apply (index_membership (online three_movies) false fresh _
           [ModelLoading; ModelLoaded; Building; Encoding 2; Built]).
  - reflexivity.
  - apply run_after. evaluate.
  - evaluate.
  - apply (bool_decide_unpack _). by vm_compute.
Defined.

(** The rows of [three_movies], as the index has them: the eleven characters
    of "hello world" are in, the five of "short" are out. *)
Example indexed_three_movies :
  movie_ids (after (build_index (online three_movies) false) fresh)
  = Some [PInt 1; PInt 2] ∧
  trimmed_length <$> three_movies = [27; 11; 5]%nat.
Proof. split; evaluate. Qed.

(** A search for five results over the two indexed rows of [three_movies]. *)
Lemma search_bounds_witness :
  let run := search (online three_movies) (lit "prison") 5 None in
  Z.of_nat (length (value [] (run fresh).1)) ≤ 5 ∧
  (length (value [] (run fresh).1) ≤ length (passing_rows (after run fresh) ∅))%nat ∧
  (length (passing_rows (after run fresh) ∅) ≤ rows (after run fresh))%nat.
Proof.
  intros run.
  destruct (search_bounds (online three_movies) (lit "prison") 5 None fresh)
    as (Hbound & _ & _).
  apply (Hbound (value [] (run fresh).1) (after run fresh)).
  - done.
  - apply stable_argsort_perm.
  - apply (run_after run). apply value_ok. evaluate.
Defined.

(** Five results asked for, three rows in the table, two of them indexed:
    two results. *)
Example search_three_movies :
  hit_ids (search (online three_movies) (lit "prison") 5 None fresh).1
  = Ok [PInt 2; PInt 1] ∧
  hit_ids (search (online three_movies) (lit "prison") 1 None fresh).1
  = Ok [PInt 2] ∧
  hit_ids (search (online three_movies) (lit "prison") 5
             (Some {["year_min" := PInt 2000]}) fresh).1 = Ok [] ∧
  hit_ids (search (online three_movies) (lit "prison") 5
             (Some text_year_filter) fresh).1 = Ok [PInt 2; PInt 1].
Proof. split_and!; evaluate. Qed.

(** Without a tie the queried row ranks first and is left out. *)
Example search_by_id_two_movies :
  hit_ids (search_by_id (online two_movies) (PInt 1) 6 fresh).1 = Ok [PInt 2] ∧
  hit_ids (search_by_id (online two_movies) (PInt 2) 6 fresh).1 = Ok [PInt 1] ∧
  hit_ids (search_by_id (online two_movies) (PInt 9) 6 fresh).1 = Ok [].
Proof. split_and!; evaluate. Qed.

(** A table with one indexable row. *)
Lemma search_by_id_single_witness :
  let w := after (build_index (online [short_movie; row 1 "Heat" 1995 "A long story."]) false) fresh in
  search_by_id (online [short_movie; row 1 "Heat" 1995 "A long story."]) (PInt 1) 6 w
  = (Ok [], w) ∧
  ∀ other, other ≠ PInt 1 →
    search_by_id (online [short_movie; row 1 "Heat" 1995 "A long story."]) other 6 w
    = (Ok [], w).
Proof.
  intros w.
  apply (search_by_id_single _ w (embed (value [] (sentence (row 1 "Heat" 1995 "A long story."))))).
  - evaluate.
  - evaluate.
  - apply stable_argsort_perm.
Defined.

(** ** Further properties on concrete tables *)

(** *** The stand-in for [argsort] sorts *)

Lemma StronglySorted_lookup {A} (R : A → A → Prop) l i j x y :
  StronglySorted R l → (i < j)%nat → l !! i = Some x → l !! j = Some y → R x y.
Proof.
  intros Hs. revert i j.
  induction Hs as [|z l Hs IH Hall]; intros i j Hij Hi Hj; [done|].
  destruct i as [|i], j as [|j]; try lia; simpl in *.
  - simplify_eq. rewrite Forall_forall in Hall. apply Hall.
    apply list_elem_of_lookup; eauto.
  - eapply (IH i j); [lia|done..].
Qed.

Lemma insert_sorted_sorted x l :
  StronglySorted (λ a b : nat * Z, a.2 ≤ b.2) l →
  StronglySorted (λ a b : nat * Z, a.2 ≤ b.2) (insert_sorted x l).
Proof.
  induction l as [|y l IH]; simpl; intros Hs.
  { repeat constructor. }
  apply StronglySorted_inv in Hs as [Hs Hall].
  destruct (Z.ltb_spec x.2 y.2).
  - constructor; [by constructor|]. constructor; [lia|].
    eapply Forall_impl; [exact Hall|]. simpl. intros z ?. lia.
  - constructor; [by apply IH|]. rewrite insert_sorted_perm.
    constructor; [lia|done].
Qed.

Lemma foldl_insert_sorted (k acc : list (nat * Z)) :
  StronglySorted (λ a b : nat * Z, a.2 ≤ b.2) acc →
  StronglySorted (λ a b : nat * Z, a.2 ≤ b.2)
    (foldl (λ acc x, insert_sorted x acc) acc k).
Proof.
  revert acc. induction k as [|x k IH]; intros acc Hs; [done|].
  simpl. by apply IH, insert_sorted_sorted.
Qed.

Lemma foldl_insert_perm (k acc : list (nat * Z)) :
  foldl (λ acc x, insert_sorted x acc) acc k ≡ₚ k ++ acc.
Proof.
  revert acc. induction k as [|x k IH]; intros acc; [done|]. simpl.
  rewrite IH, insert_sorted_perm. by rewrite Permutation_middle.
Qed.

Lemma stable_argsort_ascending load fails movies :
  ascending (demo_env load fails movies).
Proof.
  intros l i j a b sa sb Hij Ha Hb Hsa Hsb. simpl in *.
  unfold stable_argsort in Ha, Hb.
  set (ps := foldl _ _ _) in *.
  assert (StronglySorted (λ a b : nat * Z, a.2 ≤ b.2) ps) as Hs.
  { apply foldl_insert_sorted. constructor. }
  assert (∀ p c s, ps !! p = Some (c, s) → l !! c = Some s) as Hval.
  { intros p c s Hp.
    assert ((c, s) ∈ imap pair l) as Hin.
    { rewrite <- (app_nil_r (imap pair l)), <- foldl_insert_perm.
      apply list_elem_of_lookup. eauto. }
    apply elem_of_lookup_imap in Hin as (c' & s' & [= -> ->] & Hl). done. }
  rewrite list_lookup_fmap in Ha, Hb.
  destruct (ps !! i) as [[a' sa']|] eqn:Hi; simplify_eq/=.
  destruct (ps !! j) as [[b' sb']|] eqn:Hj; simplify_eq/=.
  rewrite (Hval _ _ _ Hi) in Hsa. rewrite (Hval _ _ _ Hj) in Hsb.
  simplify_eq. apply Z.leb_le.
  exact (StronglySorted_lookup _ _ _ _ _ _ Hs Hij Hi Hj).
Qed.

Lemma encode_one_row_each load movies ss :
  ∃ vs, encode (demo_env load false movies) ss = Ok vs ∧ length vs = length ss.
Proof. eexists. split; [reflexivity|]. apply length_fmap. Qed.

Lemma encode_rows load fails movies ss vs :
  encode (demo_env load fails movies) ss = Ok vs → length vs = length ss.
Proof. simpl. destruct fails; [done|]. intros [= <-]. apply length_fmap. Qed.

Lemma serving_built : built_from (online two_movies) serving.
Proof.
  apply (build_index_built (online two_movies) false fresh serving first_build).
  - apply run_after. evaluate.
  - evaluate.
  - apply (bool_decide_unpack _). by vm_compute.
Qed.

(** *** The further properties on concrete tables *)

Lemma cache_written_by_completed_build_witness :
  let run := build_index (disk_full two_movies) true in
  (cache serving = cache fresh ∨
   (Ok () = Ok () ∧ last (log serving) = Some Built ∧
    cache serving = saved serving) ∨
   (∃ e, Ok () = Raise e ∧ open_wb (online two_movies) = Ok () ∧
         pickle_dump (online two_movies) = Raise e ∧
         cache serving = Unreadable)) ∧
  (cache (after run serving) = cache serving ∨
   (@Raise () OSError = Ok () ∧ last (log (after run serving)) = Some Built ∧
    cache (after run serving) = saved (after run serving)) ∨
   (∃ e, @Raise () OSError = Raise e ∧ open_wb (disk_full two_movies) = Ok () ∧
         pickle_dump (disk_full two_movies) = Raise e ∧
         cache (after run serving) = Unreadable)).
Proof.
  intros run. split.
  - apply (cache_written_by_completed_build (online two_movies) false fresh
             (Ok ()) serving).
    apply run_after. evaluate.
  - apply (cache_written_by_completed_build (disk_full two_movies) true
             serving (Raise OSError) (after run serving)).
    apply (run_after run). evaluate.
Defined.

(** A forced rebuild on a full disk: the new generation is in memory, the
    call raises, and the file that [serving] had written is gone; the next
    process finds a file it cannot load and rebuilds. *)
Example dump_failure_destroys_cache :
  let run := build_index (disk_full two_movies) true in
  (run serving).1 = Raise OSError ∧
  cache serving = saved serving ∧
  cache (after run serving) = Unreadable ∧
  generation (after run serving) = generation serving ∧
  log (after (build_index (online two_movies) false)
             (init default_model_name (cache (after run serving))))
  = [CacheLoadFailed UnpicklingError; ModelLoading; ModelLoaded; Building;
     Encoding 2; Built].
Proof. intros run. split_and!; evaluate. Qed.

Lemma cache_round_trip_witness :
  (∃ w1, _save_to_cache (online two_movies) serving = (Ok (), w1) ∧
         generation w1 = generation serving ∧
         ∀ w0, cache w0 = cache w1 →
           ∃ w2, _load_from_cache w0 = (Ok (), w2) ∧
                 generation w2 = generation serving ∧ cache w2 = cache w0) ∧
  (∃ w1, _save_to_cache (disk_full two_movies) serving = (Raise OSError, w1) ∧
         generation w1 = generation serving ∧ cache w1 = Unreadable ∧
         ∀ w0, cache w0 = cache w1 →
           _load_from_cache w0 = (Raise UnpicklingError, w0)).
Proof.
  split.
  - destruct (cache_round_trip (online two_movies) serving) as (Hsave & _).
    by apply Hsave.
  - destruct (cache_round_trip (disk_full two_movies) serving) as (_ & _ & Hdump).
    by apply Hdump.
Defined.

Lemma malformed_row_aborts_build_witness :
  ∃ e w', build_index (online (two_movies ++ [cut_row])) true serving
          = (Raise e, w') ∧
          (e = IndexError ∨ e = AttributeError) ∧
          generation w' = generation serving ∧ cache w' = cache serving.
Proof.
  apply (malformed_row_aborts_build (online (two_movies ++ [cut_row])) true
           serving (two_movies ++ [cut_row]) cut_row).
  - by left.
  - left. evaluate.
  - reflexivity.
  - apply (bool_decide_unpack _). by vm_compute.
  - left. simpl. lia.
Defined.

Lemma narrow_row_fails_after_ids_witness :
  (∃ s, sentence narrow_row = Ok s) ∧
  ∃ w', build_index (online [narrow_row]) false fresh = (Raise IndexError, w') ∧
        movie_ids w' = Some (omap (λ m, m !! 0%nat) [narrow_row]) ∧
        vectors w' = vectors fresh ∧ id_to_meta w' = id_to_meta fresh ∧
        cache w' = cache fresh.
Proof.
  apply (narrow_row_fails_after_ids (online [narrow_row]) false fresh
           [narrow_row] [narrow_row] narrow_row).
  - by right.
  - by right.
  - reflexivity.
  - evaluate.
  - apply list_elem_of_here.
  - simpl. lia.
Defined.

Lemma build_without_indexable_rows_witness :
  ∃ w', build_index (online [short_movie]) true serving = (Ok (), w') ∧
        generation w' = generation serving ∧ cache w' = cache serving ∧
        last (log w') = Some NoValidMovies.
Proof.
  apply (build_without_indexable_rows (online [short_movie]) true serving
           [short_movie]).
  - by left.
  - left. evaluate.
  - reflexivity.
  - constructor; [evaluate|constructor].
Defined.

Lemma stale_cache_stays_witness :
  ∃ w', build_index (online [short_movie]) false restarted = (Ok (), w') ∧
        generation w' = (vectors serving, Some [PInt 1; PInt 2], id_to_meta serving) ∧
        cache w' = cache restarted ∧
        (vectors serving ≠ None →
         build_index (online [short_movie]) false w' = (Ok (), w')).
Proof.
  apply (stale_cache_stays_without_indexable_rows (online [short_movie])
           restarted (vectors serving) [PInt 1; PInt 2] (id_to_meta serving)
           [short_movie]).
  - reflexivity.
  - evaluate.
  - by right.
  - reflexivity.
  - simpl. lia.
  - constructor; [evaluate|constructor].
Defined.

Lemma restart_adopts_iff_all_indexable_witness :
  (Forall (λ m, indexable m = Ok true) two_movies →
     ∃ w2, build_index (online two_movies) false restarted = (Ok (), w2) ∧
           generation w2 = generation serving ∧ model w2 = model restarted ∧
           cache w2 = cache restarted ∧
           log w2 = log restarted ++ [CacheAdopted]) ∧
  (∀ m, m ∈ two_movies → indexable m = Ok false →
     ∃ w1 n, build_index (online two_movies) false restarted
             = rebuild (online two_movies) w1 ∧
             generation w1 = generation serving ∧ model w1 = model restarted ∧
             (n < length two_movies)%nat ∧
             log w1 = log restarted ++ [CacheStale (length two_movies) n]).
Proof.
  apply (restart_adopts_iff_all_indexable (online two_movies) false fresh
           serving first_build two_movies restarted).
  - apply run_after. evaluate.
  - evaluate.
  - apply (bool_decide_unpack _). by vm_compute.
  - reflexivity.
  - reflexivity.
  - reflexivity.
Defined.

Lemma duplicate_identifier_last_wins_witness :
  ∃ valid metas,
    res_filterM indexable reissued = Ok valid ∧
    id_to_meta (after (build_index (online reissued) false) fresh) = Some metas ∧
    ∀ id md,
      metas !! id = Some md ↔
      ∃ m, last (filter (λ m, m !! 0%nat = Some id) valid) = Some m ∧
           meta_entry m = Ok (id, md).
Proof.
  apply (duplicate_identifier_last_wins (online reissued) false fresh _
           first_build reissued).
  - reflexivity.
  - apply run_after. evaluate.
  - evaluate.
  - apply (bool_decide_unpack _). by vm_compute.
Defined.

Example reissued_title :
  (m ← default ∅ (id_to_meta (after (build_index (online reissued) false) fresh))
         !! PInt 1; m !! "title")
  = Some (PStr (lit "Heat (remastered)")) ∧
  movie_ids (after (build_index (online reissued) false) fresh)
  = Some [PInt 1; PInt 1].
Proof. split; evaluate. Qed.

Lemma passes_well_typed_witness :
  (∃ b, eval_filters nineties_us gump_meta = Ok b) ∧
  (passes nineties_us gump_meta = true ↔
     in_year_range nineties_us gump_meta ∧
     mentions "country" nineties_us gump_meta ∧
     mentions "category" nineties_us gump_meta ∧
     mentions "director" nineties_us gump_meta ∧
     mentions "actor" nineties_us gump_meta).
Proof. apply (passes_well_typed nineties_us gump_meta). evaluate. Defined.

Example passes_nineties_us :
  passes nineties_us gump_meta = true ∧
  passes (<["country" := PStr (lit "France")]> nineties_us) gump_meta = false ∧
  passes (<["year_max" := PInt 1993]> nineties_us) gump_meta = false ∧
  passes (<["country" := PStr []]> (<["actor" := PNone]> nineties_us)) gump_meta
  = true.
Proof. split_and!; evaluate. Qed.

Lemma malformed_year_bound_disables_filters_witness :
  (∀ meta, passes text_year_filter meta = true) ∧
  (∀ (w : @world (list Z)) top_k (sim : list Z) l acc,
     search_loop w top_k text_year_filter sim l acc
     = search_loop w top_k ∅ sim l acc).
Proof.
  apply (malformed_year_bound_disables_filters text_year_filter
           (PStr (lit "2000"))).
  - left. evaluate.
  - intros z. discriminate.
Defined.

Lemma search_first_passing_witness :
  let run := search (online three_movies) (lit "prison") 5 None in
  ((value [] (run fresh).1 = [] ∧ rows (after run fresh) = 0%nat) ∨
   ∃ text qv rest vs,
     text = (if contains (lit "bge") (lower (model_name fresh))
             then query_instruction ++ lit "prison" else lit "prison") ∧
     encode (online three_movies) [text] = Ok (qv :: rest) ∧
     vectors (after run fresh) = Some vs ∧
     Forall2 (hit_of_row (after run fresh) (closeness qv <$> vs))
       (take (Z.to_nat 5)
          (filter (λ i, row_passes (after run fresh) (default ∅ None) i = true)
                  (reverse (stable_argsort (closeness qv <$> vs)))))
       (value [] (run fresh).1)) ∧
  (5 ≤ 0 → value [] (run fresh).1 = []).
Proof.
  intros run.
  apply (search_first_passing (online three_movies) (lit "prison") 5 None
           fresh (value [] (run fresh).1) (after run fresh)).
  apply (run_after run). apply value_ok. evaluate.
Defined.

(** Which model names get the retrieval instruction; the similarities of
    the same query differ with the text that is encoded. *)
Example instruction_by_model_name :
  contains (lit "bge") (lower default_model_name) = true ∧
  contains (lit "bge") (lower (lit "BAAI/BGE-M3")) = true ∧
  contains (lit "bge") (lower (lit "all-MiniLM-L6-v2")) = false ∧
  h_similarity <$>
    value [] (search (online three_movies) (lit "prison") 2 None fresh).1
  = [-2713; -10625] ∧
  h_similarity <$>
    value [] (search (online three_movies) (lit "prison") 2 None fresh_minilm).1
  = [-7066; -10330].
Proof. split_and!; evaluate. Qed.

Lemma search_results_ranked_witness :
  let run := search (online three_movies) (lit "prison") 5 None in
  (∀ a b ha hb, (a < b)%nat →
     value [] (run fresh).1 !! a = Some ha →
     value [] (run fresh).1 !! b = Some hb →
     (h_similarity hb <=? h_similarity ha) = true) ∧
  (∀ ids, movie_ids (after run fresh) = Some ids → NoDup ids →
          NoDup (h_id <$> value [] (run fresh).1)).
Proof.
  intros run.
  apply (search_results_ranked (online three_movies) (lit "prison") 5 None
           fresh (value [] (run fresh).1) (after run fresh)).
  - apply stable_argsort_perm.
  - apply stable_argsort_ascending.
  - apply (run_after run). apply value_ok. evaluate.
Defined.

Lemma search_total_on_built_index_witness :
  ∃ hits w', search (online two_movies) (lit "prison") 5 (Some text_year_filter)
               serving = (Ok hits, w') ∧
             generation w' = generation serving ∧ cache w' = cache serving.
Proof.
  apply (search_total_on_built_index (online two_movies) serving).
  - apply serving_built.
  - left. evaluate.
  - apply encode_one_row_each.
  - apply stable_argsort_perm.
Defined.

Lemma search_by_id_total_on_built_index_witness :
  ∃ hits, search_by_id (online two_movies) (PInt 2) 6 serving = (Ok hits, serving).
Proof.
  apply (search_by_id_total_on_built_index (online two_movies) serving).
  - apply serving_built.
  - apply encode_rows.
  - apply stable_argsort_perm.
Defined.

Lemma search_by_id_count_witness :
  let run := search_by_id (online two_movies) (PInt 1) 6 in
  (0 ≤ 6 →
     Z.of_nat (length (value [] (run serving).1))
     = Z.min 6 (Z.of_nat (length (default [] (vectors serving))) - 1)) ∧
  (6 = -1 → value [] (run serving).1 = []) ∧
  (6 ≤ -2 →
     Z.of_nat (length (value [] (run serving).1))
     = Z.max 0 (Z.of_nat (length (default [] (vectors serving))) + 6)) ∧
  (NoDup [PInt 1; PInt 2] → NoDup (h_id <$> value [] (run serving).1)).
Proof.
  intros run.
  apply (search_by_id_count (online two_movies) serving
           (default [] (vectors serving)) [PInt 1; PInt 2] (PInt 1) 6
           (value [] (run serving).1) (after run serving)).
  - evaluate.
  - evaluate.
  - apply list_elem_of_here.
  - apply stable_argsort_perm.
  - apply (run_after run). apply value_ok. evaluate.
Defined.

Example top_k_below_zero :
  hit_ids (search_by_id (online duplicated) (PInt 3) (-2) fresh).1
  = Ok [PInt 2] ∧
  hit_ids (search_by_id (online duplicated) (PInt 3) (-1) fresh).1 = Ok [] ∧
  hit_ids (search_by_id (online duplicated) (PInt 3) 0 fresh).1 = Ok [] ∧
  hit_ids (search (online duplicated) (lit "robbers") (-2) None fresh).1 = Ok [].
Proof. split_and!; evaluate. Qed.

Lemma search_by_id_excludes_closest_witness :
  let run := search_by_id (online two_movies) (PInt 1) 6 in
  PInt 1 ∉ h_id <$> value [] (run serving).1.
Proof.
  intros run.
  apply (search_by_id_excludes_closest (online two_movies) serving
           (default [] (vectors serving)) [PInt 1; PInt 2] (PInt 1) 0%nat
           (value [] (index (vectors serving) 0)) 6
           (value [] (run serving).1) (after run serving)).
  - evaluate.
  - evaluate.
  - apply (bool_decide_unpack _). by vm_compute.
  - evaluate.
  - evaluate.
  - apply stable_argsort_perm.
  - apply stable_argsort_ascending.
  - intros j u Hj Hu. vm_compute in Hu.
    destruct j as [|[|j]]; [done| |done]. injection Hu as <-. evaluate.
  - apply (run_after run). apply value_ok. evaluate.
Defined.

Lemma queries_start_no_build_witness :
  (∀ movie_id top_k r w',
     search_by_id (online two_movies) movie_id top_k serving = (r, w') →
     w' = serving) ∧
  (∀ query top_k filters r w',
     search (online two_movies) query top_k filters serving = (r, w') →
     generation w' = generation serving ∧ cache w' = cache serving ∧
     ∃ evs, log w' = log serving ++ evs ∧ Building ∉ evs).
Proof.
  apply (queries_start_no_build (online two_movies) serving).
  intros H. vm_compute in H. discriminate.
Defined.

Lemma encode_failure_is_not_repaired_witness :
  ∃ w', build_index (demo_env (Ok ()) true (Ok duplicated)) true serving
        = (Raise EncodeError, w') ∧
        generation w'
        = (vectors serving, Some [PInt 1; PInt 2; PInt 3],
           Some (dict_of (value [] (res_mapM meta_entry duplicated)))) ∧
        cache w' = cache serving ∧
        (vectors serving ≠ None →
         build_index (demo_env (Ok ()) true (Ok duplicated)) false w'
         = (Ok (), w')).
Proof.
  apply (encode_failure_is_not_repaired
           (demo_env (Ok ()) true (Ok duplicated)) true serving EncodeError
           duplicated duplicated (value [] (res_mapM sentence duplicated))
           [PInt 1; PInt 2; PInt 3]
           (value [] (res_mapM meta_entry duplicated))).
  - by left.
  - left. evaluate.
  - reflexivity.
  - evaluate.
  - done.
  - apply value_ok. evaluate.
  - evaluate.
  - apply value_ok. evaluate.
  - reflexivity.
Defined.

Lemma results_show_table_rows_witness :
  (∀ query top_k filters hits w',
     search (online two_movies) query top_k filters serving = (Ok hits, w') →
     ∀ h, h ∈ hits →
       ∃ m, m ∈ two_movies ∧ indexable m = Ok true ∧ shows 100 m h ∧
            h_url h = Some (default (PStr []) (m !! 1%nat))) ∧
  (∀ movie_id top_k hits w',
     search_by_id (online two_movies) movie_id top_k serving = (Ok hits, w') →
     ∀ h, h ∈ hits →
       ∃ m, m ∈ two_movies ∧ indexable m = Ok true ∧ shows 60 m h ∧
            h_url h = None).
Proof.
  apply (results_show_table_rows (online two_movies) serving two_movies).
  - apply serving_built.
  - reflexivity.
Defined.

Example intro_cut :
  h_intro <$> value [] (search_by_id (online two_movies) (PInt 1) 6 serving).1
  = [lit "hello world..."] ∧
  h_intro <$> value [] (search_by_id (online two_movies) (PInt 2) 6 serving).1
  = [lit "A banker is sent to prison...."].
Proof. split; evaluate. Qed.

Lemma queries_without_index_witness :
  (∀ query top_k filters,
     ∃ w', search (online [short_movie]) query top_k filters fresh = (Ok [], w') ∧
           generation w' = generation fresh) ∧
  (∀ movie_id top_k,
     ∃ w', search_by_id (online [short_movie]) movie_id top_k fresh
           = (Raise TypeError, w') ∧
           generation w' = generation fresh).
Proof.
  apply (queries_without_index (online [short_movie]) fresh [short_movie]).
  - reflexivity.
  - reflexivity.
  - reflexivity.
  - by right.
  - reflexivity.
  - constructor; [evaluate|constructor].
Defined.
